(** * Service orders (ordem_servico) data-access hooks

    Shallow embedding of [src/hooks/useOrdensServico.ts]: the read hook
    [useOrdensServico] and the mutations [useUpdateOrdemServico],
    [useCreateOrdemServico] and [useDeleteOrdemServico].

    The remote data service (Supabase) is modelled as a database value
    plus a failure oracle [fails] deciding, for each request, whether the
    service answers with an error.  Every request the hooks issue, and every
    user-visible side effect (cache invalidation, toasts, console logging),
    is recorded in an event log, in the order it happens. *)

From Stdlib Require Import String List ZArith Bool Lia Sorted Permutation.
Import ListNotations.
Open Scope string_scope.
Open Scope list_scope.

(** ** Data model *)

(** Primary and foreign keys are uuid columns.  A uuid is never the empty
    string, so the JavaScript truthiness test of an id ([if (os.cliente_id)])
    is exactly the test "not null"; ids are modelled as [nat]. *)
Definition uuid := nat.

Record cliente := mkCliente { cliente_id : uuid; cliente_nome : string }.

Record veiculo := mkVeiculo {
  veiculo_id : uuid;
  veiculo_cliente_id : option uuid;
  veiculo_placa : string }.

Record orcamento := mkOrcamento { orcamento_id : uuid; orcamento_status : string }.

Record orcamento_peca := mkOrcamentoPeca {
  op_orcamento_id : uuid;
  op_peca_id : uuid;
  op_quantidade : Z }.

Record orcamento_servico := mkOrcamentoServico {
  osv_orcamento_id : uuid;
  osv_servico_id : uuid }.

(** A row of table [ordem_servico]. *)
Record ordem_servico := mkOrdemServico {
  os_id : uuid;
  os_cliente_id : option uuid;
  os_veiculo_id : option uuid;
  os_orcamento_id : option uuid;
  os_status : option string;
  os_status_servico : option string;
  os_created_at : nat }.

(** [TablesUpdate<"ordem_servico">]: every column optional; a nullable
    column is [option (option _)] ([None] = key absent, [Some None] = null). *)
Record ordem_servico_update := mkOrdemServicoUpdate {
  upd_cliente_id : option (option uuid);
  upd_veiculo_id : option (option uuid);
  upd_orcamento_id : option (option uuid);
  upd_status : option (option string);
  upd_status_servico : option (option string) }.

(** Element of the argument of the inventory mutations:
    [{ pecaId, quantidadeUtilizada }]. *)
Record peca_processar := mkPecaProcessar {
  pecaId : uuid;
  quantidadeUtilizada : Z }.

(** The database.  [pecas_estoque] is the stock column of table [pecas]. *)
Record database := mkDatabase {
  ordem_servico_t : list ordem_servico;
  clientes_t : list cliente;
  veiculos_t : list veiculo;
  orcamentos_t : list orcamento;
  orcamento_pecas_t : list orcamento_peca;
  orcamento_servicos_t : list orcamento_servico;
  pecas_estoque : uuid -> Z }.

(** ** Requests, errors and events *)

Inductive request :=
| SelectOrdensDetalhes
| SelectVeiculosDoCliente (c : uuid)
| SelectOsAtual (id : uuid)
| UpdateOs (id : uuid) (u : ordem_servico_update)
| InsertOs (o : ordem_servico)
| SelectOsOrcamentoId (id : uuid)
| DeleteOs (id : uuid)
| UpdateOrcamentoStatus (oid : uuid) (status : string)
| AtualizarEstoquePecas (l : list peca_processar)
| DevolverEstoquePecas (l : list peca_processar).

Inductive error :=
| ServiceError (r : request)   (** the service answered with an error *)
| NoSingleRow (r : request).   (** [.single()] on a result without one row *)

Inductive event :=
| Request (r : request)
| InvalidateQueries (key : string)
| ToastSuccess (msg : string)
| ToastError (msg : string)
| ConsoleError (msg : string) (e : error).

Record world := mkWorld { db : database; events : list event }.

(** ** A state and error monad over [world] *)

Definition M (A : Type) := world -> (error + A) * world.

Definition ret {A} (a : A) : M A := fun w => (inr a, w).

Definition bind {A B} (m : M A) (k : A -> M B) : M B :=
  fun w => match m w with
           | (inr a, w') => k a w'
           | (inl e, w') => (inl e, w')
           end.

Notation "x <- m ;; k" := (bind m (fun x => k))
  (at level 61, m at next level, right associativity).

Definition throw {A} (e : error) : M A := fun w => (inl e, w).

Definition emit (ev : event) : M unit :=
  fun w => (inr tt, mkWorld (db w) (events w ++ [ev])).

(** [if (error) throw error; return data]. *)
Definition throw_if_error {A} (r : error + A) : M A :=
  match r with inl e => throw e | inr a => ret a end.

Section Service.

(** The failure oracle of the data service. *)
Variable fails : request -> bool.

(** [await supabase....]: the request is issued (logged); the service either
    answers with an error (no effect on the data) or runs the query [q] on
    the database.  Like supabase-js, the result is returned as
    [{ data, error }], not thrown. *)
Definition call {A} (r : request) (q : database -> (error + A) * database)
  : M (error + A) :=
  fun w =>
    let w1 := mkWorld (db w) (events w ++ [Request r]) in
    if fails r then (inr (inl (ServiceError r)), w1)
    else let (res, d') := q (db w) in (inr res, mkWorld d' (events w1)).

(** ** Queries run by the service *)

Definition with_ordens (d : database) (rows : list ordem_servico) : database :=
  mkDatabase rows (clientes_t d) (veiculos_t d) (orcamentos_t d)
    (orcamento_pecas_t d) (orcamento_servicos_t d) (pecas_estoque d).

Definition with_orcamentos (d : database) (rows : list orcamento) : database :=
  mkDatabase (ordem_servico_t d) (clientes_t d) (veiculos_t d) rows
    (orcamento_pecas_t d) (orcamento_servicos_t d) (pecas_estoque d).

Definition with_estoque (d : database) (est : uuid -> Z) : database :=
  mkDatabase (ordem_servico_t d) (clientes_t d) (veiculos_t d) (orcamentos_t d)
    (orcamento_pecas_t d) (orcamento_servicos_t d) est.

(** [.from("ordem_servico")...eq("id", id)] *)
Definition os_rows (id : uuid) (d : database) : list ordem_servico :=
  filter (fun o => Nat.eqb (os_id o) id) (ordem_servico_t d).

(** [.single()]: exactly one row, otherwise an error. *)
Definition single {A} (r : request) (rows : list A) : error + A :=
  match rows with [x] => inr x | _ => inl (NoSingleRow r) end.

(** The joined estimate's parts: [orcamento:orcamentos(orcamento_pecas(...))];
    [None] when the order has no estimate (the join gives [null]). *)
Definition join_orcamento_pecas (d : database) (o : ordem_servico)
  : option (list orcamento_peca) :=
  match os_orcamento_id o with
  | Some oid =>
      match find (fun e => Nat.eqb (orcamento_id e) oid) (orcamentos_t d) with
      | Some _ => Some (filter (fun p => Nat.eqb (op_orcamento_id p) oid)
                          (orcamento_pecas_t d))
      | None => None
      end
  | None => None
  end.

(** Result row of the first select of the update: [osAtual]. *)
Record os_atual := mkOsAtual {
  osa_row : ordem_servico;
  osa_orcamento_pecas : option (list orcamento_peca) }.

Definition q_os_atual (id : uuid) (d : database) : (error + os_atual) * database :=
  (match single (SelectOsAtual id) (os_rows id d) with
   | inr o => inr (mkOsAtual o (join_orcamento_pecas d o))
   | inl e => inl e
   end, d).

Definition set_field {A} (x : option A) (old : A) : A :=
  match x with Some v => v | None => old end.

(** [.update(updates)] on one row: the keys present overwrite the columns. *)
Definition apply_update (u : ordem_servico_update) (o : ordem_servico)
  : ordem_servico :=
  mkOrdemServico (os_id o)
    (set_field (upd_cliente_id u) (os_cliente_id o))
    (set_field (upd_veiculo_id u) (os_veiculo_id o))
    (set_field (upd_orcamento_id u) (os_orcamento_id o))
    (set_field (upd_status u) (os_status o))
    (set_field (upd_status_servico u) (os_status_servico o))
    (os_created_at o).

(** [.update(updates).eq("id", id).select().single()]: with [.single()] the
    request is rejected (and the statement rolled back) unless exactly one
    row was updated. *)
Definition q_update_os (id : uuid) (u : ordem_servico_update) (d : database)
  : (error + ordem_servico) * database :=
  let rows' := map (fun o => if Nat.eqb (os_id o) id then apply_update u o else o)
                   (ordem_servico_t d) in
  match single (UpdateOs id u) (filter (fun o => Nat.eqb (os_id o) id) rows') with
  | inr o => (inr o, with_ordens d rows')
  | inl e => (inl e, d)
  end.

(** Modelled from the spec: the inventory hooks [useAtualizarEstoquePecas] and
    [useDevolverEstoquePecas] (file [useEstoquePecas], not in the sources)
    "consume quantities for part ids" and "return quantities for part ids":
    each listed part's stock decreases (resp. increases) by its quantity. *)
Definition ajustar_estoque (sign : Z) (l : list peca_processar) (est : uuid -> Z)
  : uuid -> Z :=
  fold_left (fun est it => fun p =>
               if Nat.eqb p (pecaId it) then (est p + sign * quantidadeUtilizada it)%Z
               else est p) l est.

(** Modelled from the spec: [atualizarEstoquePecas.mutateAsync(l)]. *)
Definition q_atualizar_estoque (l : list peca_processar) (d : database)
  : (error + unit) * database :=
  (inr tt, with_estoque d (ajustar_estoque (-1)%Z l (pecas_estoque d))).

(** Modelled from the spec: [devolverEstoquePecas.mutateAsync(l)]. *)
Definition q_devolver_estoque (l : list peca_processar) (d : database)
  : (error + unit) * database :=
  (inr tt, with_estoque d (ajustar_estoque 1 l (pecas_estoque d))).

(** ** [useUpdateOrdemServico] *)

Definition statusAntesFinalizacao : list string := ["Andamento"; "Aguardando Peças"].
Definition statusFinalizacao : list string := ["Finalizado"; "Entregue"].

(** [array.includes(x)] for a [string | null] argument. *)
Definition includes (l : list string) (x : option string) : bool :=
  match x with Some s => existsb (String.eqb s) l | None => false end.

(** JavaScript truthiness of [updates.status_servico]
    ([undefined], [null] and [""] are falsy). *)
Definition truthy_status (x : option (option string)) : option string :=
  match x with
  | Some (Some s) => if String.eqb s "" then None else Some s
  | _ => None
  end.

Definition pecas_para_processar (l : list orcamento_peca) : list peca_processar :=
  map (fun op => mkPecaProcessar (op_peca_id op) (op_quantidade op)) l.

Definition updateOrdemServico_mutationFn (id : uuid) (updates : ordem_servico_update)
  : M ordem_servico :=
  r1 <- call (SelectOsAtual id) (q_os_atual id) ;;
  osAtual <- throw_if_error r1 ;;
  r2 <- call (UpdateOs id updates) (q_update_os id updates) ;;
  data <- throw_if_error r2 ;;
  let statusAnterior := os_status_servico (osa_row osAtual) in
  let novoStatus := truthy_status (upd_status_servico updates) in
  match novoStatus, osa_orcamento_pecas osAtual with
  | Some novo, Some ((_ :: _) as ops) =>
      let pecasParaProcessar := pecas_para_processar ops in
      _ <- (if includes statusAntesFinalizacao statusAnterior
               && includes statusFinalizacao (Some novo)
            then r <- call (AtualizarEstoquePecas pecasParaProcessar)
                           (q_atualizar_estoque pecasParaProcessar) ;;
                 throw_if_error r
            else ret tt) ;;
      _ <- (if includes statusFinalizacao statusAnterior
               && includes statusAntesFinalizacao (Some novo)
            then r <- call (DevolverEstoquePecas pecasParaProcessar)
                           (q_devolver_estoque pecasParaProcessar) ;;
                 throw_if_error r
            else ret tt) ;;
      ret data
  | _, _ => ret data
  end.

(** ** [useMutation] of TanStack Query

    [onSuccess] runs after [mutationFn] resolves, [onError] after it
    rejects; the caller of [mutateAsync] gets the result or the error. *)
Definition useMutation {A} (mutationFn : M A) (onSuccess : M unit)
  (onError : error -> M unit) : M A :=
  fun w =>
    match mutationFn w with
    | (inr a, w') => let (_, w'') := onSuccess w' in (inr a, w'')
    | (inl e, w') => let (_, w'') := onError e w' in (inl e, w'')
    end.

Definition useUpdateOrdemServico (id : uuid) (updates : ordem_servico_update)
  : M ordem_servico :=
  useMutation (updateOrdemServico_mutationFn id updates)
    (_ <- emit (InvalidateQueries "ordens_servico") ;;
     emit (ToastSuccess "Ordem de serviço atualizada com sucesso!"))
    (fun e =>
       _ <- emit (ConsoleError "Erro ao atualizar ordem de serviço:" e) ;;
       emit (ToastError "Erro ao atualizar ordem de serviço")).

(** ** [useCreateOrdemServico] *)

(** [.insert(ordemServico).select().single()] *)
Definition q_insert_os (o : ordem_servico) (d : database)
  : (error + ordem_servico) * database :=
  (inr o, with_ordens d (ordem_servico_t d ++ [o])).

Definition createOrdemServico_mutationFn (ordemServico : ordem_servico)
  : M ordem_servico :=
  r <- call (InsertOs ordemServico) (q_insert_os ordemServico) ;;
  newOS <- throw_if_error r ;;
  ret newOS.

Definition useCreateOrdemServico (ordemServico : ordem_servico) : M ordem_servico :=
  useMutation (createOrdemServico_mutationFn ordemServico)
    (_ <- emit (InvalidateQueries "ordens_servico") ;;
     emit (ToastSuccess "Ordem de serviço criada com sucesso!"))
    (fun e =>
       _ <- emit (ConsoleError "Erro ao criar ordem de serviço:" e) ;;
       emit (ToastError "Erro ao criar ordem de serviço")).

(** ** [useDeleteOrdemServico] *)

(** [.select("orcamento_id").eq("id", id).single()] *)
Definition q_os_orcamento_id (id : uuid) (d : database)
  : (error + option uuid) * database :=
  (match single (SelectOsOrcamentoId id) (os_rows id d) with
   | inr o => inr (os_orcamento_id o)
   | inl e => inl e
   end, d).

(** [.delete().eq("id", id)] *)
Definition q_delete_os (id : uuid) (d : database) : (error + unit) * database :=
  (inr tt, with_ordens d (filter (fun o => negb (Nat.eqb (os_id o) id))
                                 (ordem_servico_t d))).

(** [.from("orcamentos").update({ status }).eq("id", oid)] *)
Definition q_update_orcamento_status (oid : uuid) (status : string) (d : database)
  : (error + unit) * database :=
  (inr tt, with_orcamentos d
             (map (fun e => if Nat.eqb (orcamento_id e) oid
                            then mkOrcamento (orcamento_id e) status else e)
                  (orcamentos_t d))).

(** Result of the delete: [{ deletedId, orcamentoId }]. *)
Record delete_result := mkDeleteResult {
  deletedId : uuid;
  orcamentoId : option uuid }.

Definition deleteOrdemServico_mutationFn (id : uuid) : M delete_result :=
  r1 <- call (SelectOsOrcamentoId id) (q_os_orcamento_id id) ;;
  os <- throw_if_error r1 ;;
  r2 <- call (DeleteOs id) (q_delete_os id) ;;
  _ <- throw_if_error r2 ;;
  _ <- match os with
       | Some oid =>
           r3 <- call (UpdateOrcamentoStatus oid "Pendente")
                      (q_update_orcamento_status oid "Pendente") ;;
           throw_if_error r3
       | None => ret tt
       end ;;
  ret (mkDeleteResult id os).

Definition useDeleteOrdemServico (id : uuid) : M delete_result :=
  useMutation (deleteOrdemServico_mutationFn id)
    (_ <- emit (InvalidateQueries "ordens_servico") ;;
     _ <- emit (InvalidateQueries "orcamentos") ;;
     emit (ToastSuccess "Ordem de serviço excluída com sucesso!"))
    (fun e =>
       _ <- emit (ConsoleError "Erro ao excluir ordem de serviço:" e) ;;
       emit (ToastError "Erro ao excluir ordem de serviço")).

(** ** [useOrdensServico] *)

Record orcamento_detalhes := mkOrcamentoDetalhes {
  od_orcamento : orcamento;
  od_pecas : list orcamento_peca;
  od_servicos : list orcamento_servico }.

(** [OrdemServicoWithDetails]; [osd_cliente_veiculo = None] is the absent
    optional field [cliente_veiculo]. *)
Record os_detalhes := mkOsDetalhes {
  osd_row : ordem_servico;
  osd_cliente : option cliente;
  osd_veiculo : option veiculo;
  osd_orcamento : option orcamento_detalhes;
  osd_cliente_veiculo : option veiculo }.

Definition opt_find {A} (key : A -> uuid) (l : list A) (k : option uuid) : option A :=
  match k with
  | Some k => find (fun x => Nat.eqb (key x) k) l
  | None => None
  end.

(** The nested joins of the list select. *)
Definition detalhar (d : database) (o : ordem_servico) : os_detalhes :=
  mkOsDetalhes o
    (opt_find cliente_id (clientes_t d) (os_cliente_id o))
    (opt_find veiculo_id (veiculos_t d) (os_veiculo_id o))
    (match opt_find orcamento_id (orcamentos_t d) (os_orcamento_id o) with
     | Some e =>
         Some (mkOrcamentoDetalhes e
                 (filter (fun p => Nat.eqb (op_orcamento_id p) (orcamento_id e))
                         (orcamento_pecas_t d))
                 (filter (fun s => Nat.eqb (osv_orcamento_id s) (orcamento_id e))
                         (orcamento_servicos_t d)))
     | None => None
     end)
    None.

(** [.order("created_at", { ascending: false })] *)
Fixpoint insert_desc (o : ordem_servico) (l : list ordem_servico) : list ordem_servico :=
  match l with
  | [] => [o]
  | x :: xs => if Nat.leb (os_created_at x) (os_created_at o) then o :: l
               else x :: insert_desc o xs
  end.

Definition sort_created_desc (l : list ordem_servico) : list ordem_servico :=
  fold_right insert_desc [] l.

Definition q_ordens_detalhes (d : database) : (error + list os_detalhes) * database :=
  (inr (map (detalhar d) (sort_created_desc (ordem_servico_t d))), d).

(** The vehicles of customer [c], in table order. *)
Definition veiculos_do_cliente (d : database) (c : uuid) : list veiculo :=
  filter (fun v => match veiculo_cliente_id v with
                   | Some c' => Nat.eqb c' c
                   | None => false
                   end) (veiculos_t d).

(** [.from("veiculos").select("*").eq("cliente_id", c).limit(1)] *)
Definition q_veiculos_do_cliente (c : uuid) (d : database)
  : (error + list veiculo) * database :=
  (inr (firstn 1 (veiculos_do_cliente d c)), d).

Definition with_cliente_veiculo (os : os_detalhes) (v : veiculo) : os_detalhes :=
  mkOsDetalhes (osd_row os) (osd_cliente os) (osd_veiculo os) (osd_orcamento os)
    (Some v).

(** The callback of [ordensServico.map(async (os) => ...)]; the error of the
    secondary select is not read ([const { data: clienteVeiculos }]). *)
Definition com_veiculo_do_cliente (os : os_detalhes) : M os_detalhes :=
  match osd_veiculo os, os_cliente_id (osd_row os) with
  | None, Some c =>
      r <- call (SelectVeiculosDoCliente c) (q_veiculos_do_cliente c) ;;
      match r with
      | inr (v :: _) => ret (with_cliente_veiculo os v)
      | _ => ret os
      end
  | _, _ => ret os
  end.

(** [Promise.all]: the callbacks never reject, and each only reads; they are
    run here one after the other, in list order. *)
Fixpoint mapM {A B} (f : A -> M B) (l : list A) : M (list B) :=
  match l with
  | [] => ret []
  | x :: xs => y <- f x ;; ys <- mapM f xs ;; ret (y :: ys)
  end.

Definition ordensServico_queryFn : M (list os_detalhes) :=
  r <- call SelectOrdensDetalhes q_ordens_detalhes ;;
  ordensServico <- throw_if_error r ;;
  mapM com_veiculo_do_cliente ordensServico.

End Service.

(** ** Auxiliary definitions used by the statements and the examples *)

(** Sum of the quantities listed for part [p]. *)
Definition soma_quantidade (p : uuid) (l : list peca_processar) : Z :=
  fold_right (fun it acc => if Nat.eqb p (pecaId it)
                            then (quantidadeUtilizada it + acc)%Z else acc) 0%Z l.

(** Events of the log that are calls to the inventory hooks. *)
Definition eh_consumo (ev : event) : bool :=
  match ev with Request (AtualizarEstoquePecas _) => true | _ => false end.

Definition eh_devolucao (ev : event) : bool :=
  match ev with Request (DevolverEstoquePecas _) => true | _ => false end.

Definition eh_request (ev : event) : bool :=
  match ev with Request _ => true | _ => false end.

(** Example data: order 1 of customer 5 (who owns vehicle 7) has no vehicle
    of its own and is linked to estimate 10, which lists part 100 with
    quantity 2; part 100 has 9 units in stock. *)

Definition db_exemplo_status (st : string) : database :=
  mkDatabase
    [mkOrdemServico 1 (Some 5) None (Some 10) (Some "Aprovado") (Some st) 0]
    [mkCliente 5 "Ana"]
    [mkVeiculo 7 (Some 5) "ABC1234"]
    [mkOrcamento 10 "Aprovado"]
    [mkOrcamentoPeca 10 100 2]
    []
    (fun p => if Nat.eqb p 100 then 9%Z else 0%Z).

Definition db_exemplo : database := db_exemplo_status "Andamento".

Definition para_status (st : string) : ordem_servico_update :=
  mkOrdemServicoUpdate None None None None (Some (Some st)).

Definition para_finalizado : ordem_servico_update :=
  mkOrdemServicoUpdate None None None None (Some (Some "Finalizado")).

Definition nunca_falha : request -> bool := fun _ => false.

(** What the callback returns for one order, for a given oracle. *)
Definition resolver_veiculo (fails : request -> bool) (d : database) (os : os_detalhes)
  : os_detalhes :=
  match osd_veiculo os, os_cliente_id (osd_row os) with
  | None, Some c =>
      if fails (SelectVeiculosDoCliente c) then os
      else match veiculos_do_cliente d c with
           | v :: _ => with_cliente_veiculo os v
           | [] => os
           end
  | _, _ => os
  end.

(** The secondary request the callback issues for one order, if any. *)
Definition consulta_veiculo (os : os_detalhes) : list event :=
  match osd_veiculo os, os_cliente_id (osd_row os) with
  | None, Some c => [Request (SelectVeiculosDoCliente c)]
  | _, _ => []
  end.

(** The rows the list select returns, joined, newest first. *)
Definition ordens_detalhadas (d : database) : list os_detalhes :=
  map (detalhar d) (sort_created_desc (ordem_servico_t d)).

(** An oracle under which only the secondary vehicle lookups fail. *)
Definition falha_consulta_veiculo (r : request) : bool :=
  match r with SelectVeiculosDoCliente _ => true | _ => false end.

Definition eh_update_orcamento (ev : event) : bool :=
  match ev with Request (UpdateOrcamentoStatus _ _) => true | _ => false end.

(** A computation whose only effect on the log is to issue requests. *)
Definition so_requests {A} (m : M A) : Prop :=
  forall w, exists novos, events (snd (m w)) = events w ++ novos
                          /\ forallb eh_request novos = true.

Definition eh_ajuste (ev : event) : bool := eh_consumo ev || eh_devolucao ev.

Definition os_exemplo : ordem_servico :=
  mkOrdemServico 1 (Some 5) None (Some 10) (Some "Aprovado") (Some "Andamento") 0.

(** An oracle under which only the inventory operations fail. *)
Definition falha_estoque (r : request) : bool :=
  match r with
  | AtualizarEstoquePecas _ | DevolverEstoquePecas _ => true
  | _ => false
  end.

(** An oracle under which only the row update of the update fails. *)
Definition falha_update_os (r : request) : bool :=
  match r with UpdateOs _ _ => true | _ => false end.

(** Events of the log that are secondary vehicle lookups. *)
Definition eh_consulta_veiculo (ev : event) : bool :=
  match ev with Request (SelectVeiculosDoCliente _) => true | _ => false end.

(** Example data: order 1 without a linked estimate. *)
Definition db_sem_orcamento : database :=
  mkDatabase
    [mkOrdemServico 1 (Some 5) None None (Some "Aprovado") (Some "Andamento") 0]
    [mkCliente 5 "Ana"] [mkVeiculo 7 (Some 5) "ABC1234"] [] [] []
    (fun p => if Nat.eqb p 100 then 9%Z else 0%Z).

(** Order [b] does not come before [a] in the newest-first order. *)
Definition mais_recente_primeiro (a b : ordem_servico) : Prop :=
  os_created_at b <= os_created_at a.

(** Example data: order 1 (created at 0, no vehicle) and order 2 (created at
    5, vehicle 7), both of customer 5; order 2 uses estimate 10. *)
Definition db_duas_ordens : database :=
  mkDatabase
    [mkOrdemServico 1 (Some 5) None None (Some "Aprovado") (Some "Andamento") 0;
     mkOrdemServico 2 (Some 5) (Some 7) (Some 10) (Some "Aprovado") None 5]
    [mkCliente 5 "Ana"]
    [mkVeiculo 7 (Some 5) "ABC1234"]
    [mkOrcamento 10 "Aprovado"]
    [mkOrcamentoPeca 10 100 2]
    []
    (fun p => if Nat.eqb p 100 then 9%Z else 0%Z).

(** ** Evaluation lemmas for the monad and the service *)

Lemma call_ok {A} fails r (q : database -> (error + A) * database) w :
  fails r = false ->
  call fails r q w =
  (inr (fst (q (db w))), mkWorld (snd (q (db w))) (events w ++ [Request r])).
Proof. intros H; unfold call; rewrite H; now destruct (q (db w)). Qed.

Lemma call_fail {A} fails r (q : database -> (error + A) * database) w :
  fails r = true ->
  call fails r q w =
  (inr (inl (ServiceError r)), mkWorld (db w) (events w ++ [Request r])).
Proof. intros H; unfold call; now rewrite H. Qed.

Lemma bind_call_ok {A B} fails r (q : database -> (error + A) * database)
  (k : error + A -> M B) w :
  fails r = false ->
  bind (call fails r q) k w =
  k (fst (q (db w))) (mkWorld (snd (q (db w))) (events w ++ [Request r])).
Proof. intros H; unfold bind; now rewrite call_ok. Qed.

Lemma bind_call_fail {A B} fails r (q : database -> (error + A) * database)
  (k : error + A -> M B) w :
  fails r = true ->
  bind (call fails r q) k w =
  k (inl (ServiceError r)) (mkWorld (db w) (events w ++ [Request r])).
Proof. intros H; unfold bind; now rewrite call_fail. Qed.

Lemma bind_ret {A B} (a : A) (k : A -> M B) w : bind (ret a) k w = k a w.
Proof. reflexivity. Qed.

Lemma bind_assoc {A B C} (m : M A) (f : A -> M B) (g : B -> M C) w :
  bind (bind m f) g w = bind m (fun x => bind (f x) g) w.
Proof. unfold bind; now destruct (m w) as [[e|a] w']. Qed.

Lemma bind_throw {A B} e (k : A -> M B) w : bind (throw e) k w = (inl e, w).
Proof. reflexivity. Qed.

Lemma ajustar_estoque_spec sign l est p :
  ajustar_estoque sign l est p = (est p + sign * soma_quantidade p l)%Z.
Proof.
  unfold ajustar_estoque.
  revert est; induction l as [|it l IH]; intros est; simpl.
  - lia.
  - rewrite IH. destruct (Nat.eqb p (pecaId it)); lia.
Qed.

Lemma filter_map_same {A} (P : A -> bool) (f : A -> A) l :
  (forall x, P (f x) = P x) -> filter P (map f l) = map f (filter P l).
Proof.
  intros HP; induction l as [|x l IH]; simpl; auto.
  rewrite HP; destruct (P x); simpl; now rewrite IH.
Qed.

Lemma filter_update_single id u rows o :
  filter (fun o => Nat.eqb (os_id o) id) rows = [o] ->
  filter (fun o => Nat.eqb (os_id o) id)
    (map (fun o => if Nat.eqb (os_id o) id then apply_update u o else o) rows)
  = [apply_update u o].
Proof.
  intros H.
  rewrite filter_map_same by (intros x; destruct (Nat.eqb (os_id x) id) eqn:E; simpl; rewrite ?E; reflexivity).
  rewrite H; simpl.
  assert (Ho : In o (filter (fun o => Nat.eqb (os_id o) id) rows)) by (rewrite H; now left).
  apply filter_In in Ho as [_ ->]; reflexivity.
Qed.

Lemma q_update_os_single id u d o :
  os_rows id d = [o] ->
  q_update_os id u d =
  (inr (apply_update u o),
   with_ordens d (map (fun o => if Nat.eqb (os_id o) id then apply_update u o else o)
                      (ordem_servico_t d))).
Proof.
  intros H; unfold q_update_os, os_rows in *.
  rewrite (filter_update_single id u _ o H); reflexivity.
Qed.

Lemma q_os_atual_single id d o :
  os_rows id d = [o] -> q_os_atual id d = (inr (mkOsAtual o (join_orcamento_pecas d o)), d).
Proof. intros H; unfold q_os_atual; now rewrite H. Qed.

Lemma includes_In l x : includes l x = true <-> exists s, x = Some s /\ In s l.
Proof.
  destruct x as [s|]; simpl.
  - rewrite existsb_exists. split.
    + intros (s' & Hin & Heq). apply String.eqb_eq in Heq; subst; eauto.
    + intros (s' & [= <-] & Hin). exists s; split; auto. apply String.eqb_refl.
  - split; [discriminate | intros (s & H & _); discriminate].
Qed.

Lemma truthy_status_some u s : truthy_status u = Some s -> u = Some (Some s).
Proof.
  destruct u as [[s'|]|]; simpl; try discriminate.
  destruct (String.eqb s' ""); congruence.
Qed.

(** ** A concrete run: the example of the spec

    Setting order 1 from "Andamento" to "Finalizado" consumes the 2 units
    of part 100 and invalidates the "ordens_servico" list. *)
Example exemplo_finalizar :
  let '(res, w') := useUpdateOrdemServico nunca_falha 1 para_finalizado
                      (mkWorld db_exemplo []) in
  pecas_estoque (db w') 100 = 7%Z /\ In (InvalidateQueries "ordens_servico") (events w').
Proof. vm_compute. split; [reflexivity | tauto]. Qed.

(** ** The read operation, evaluated *)

Lemma com_veiculo_do_cliente_spec fails os w :
  com_veiculo_do_cliente fails os w =
  (inr (resolver_veiculo fails (db w) os),
   mkWorld (db w) (events w ++ consulta_veiculo os)).
Proof.
  unfold com_veiculo_do_cliente, resolver_veiculo, consulta_veiculo.
  destruct (osd_veiculo os) as [v|]; [now rewrite app_nil_r; destruct w|].
  destruct (os_cliente_id (osd_row os)) as [c|]; [|now rewrite app_nil_r; destruct w].
  destruct (fails (SelectVeiculosDoCliente c)) eqn:Hf.
  - now rewrite bind_call_fail.
  - rewrite bind_call_ok by exact Hf. cbn.
    now destruct (veiculos_do_cliente (db w) c).
Qed.

Lemma mapM_com_veiculo fails l w :
  mapM (com_veiculo_do_cliente fails) l w =
  (inr (map (resolver_veiculo fails (db w)) l),
   mkWorld (db w) (events w ++ flat_map consulta_veiculo l)).
Proof.
  revert w; induction l as [|x l IH]; intros w; simpl.
  - now rewrite app_nil_r; destruct w.
  - unfold bind at 1. rewrite com_veiculo_do_cliente_spec.
    unfold bind at 1. rewrite IH. cbn. now rewrite app_assoc.
Qed.

Lemma queryFn_ok fails w :
  fails SelectOrdensDetalhes = false ->
  ordensServico_queryFn fails w =
  (inr (map (resolver_veiculo fails (db w)) (ordens_detalhadas (db w))),
   mkWorld (db w) (events w ++ [Request SelectOrdensDetalhes]
                           ++ flat_map consulta_veiculo (ordens_detalhadas (db w)))).
Proof.
  intros Hf. unfold ordensServico_queryFn.
  rewrite bind_call_ok by exact Hf. cbn [fst snd q_ordens_detalhes throw_if_error].
  rewrite bind_ret, mapM_com_veiculo. cbn. now rewrite <- app_assoc.
Qed.

Lemma queryFn_fail fails w :
  fails SelectOrdensDetalhes = true ->
  ordensServico_queryFn fails w =
  (inl (ServiceError SelectOrdensDetalhes),
   mkWorld (db w) (events w ++ [Request SelectOrdensDetalhes])).
Proof. intros Hf. unfold ordensServico_queryFn. now rewrite bind_call_fail. Qed.

Lemma In_insert_desc a o l : In a (insert_desc o l) <-> a = o \/ In a l.
Proof.
  induction l as [|x l IH]; simpl.
  - intuition congruence.
  - destruct (Nat.leb (os_created_at x) (os_created_at o)); simpl;
      [|rewrite IH]; intuition congruence.
Qed.

Lemma In_sort_created_desc a l : In a (sort_created_desc l) <-> In a l.
Proof.
  induction l as [|x l IH]; simpl; [tauto|].
  rewrite In_insert_desc, IH; intuition congruence.
Qed.

(** ** The update operation and the inventory *)

(** C1: pre-completion to completion.  When the order is found, its
    previous service status is "Andamento" or "Aguardando Peças", the payload
    sets a status in {"Finalizado", "Entregue"} and the linked estimate has a
    non-empty part list, the update (once the lookup and the row update
    succeed) issues, after them, exactly one inventory-consume call, with the
    id and quantity of every part of the estimate, and no other request; when
    that call succeeds each part's stock decreases by its listed quantity
    (summed over the entries that name it) exactly once. *)
Theorem update_conclusao_consome_estoque fails w id updates o ops prev novo :
  os_rows id (db w) = [o] ->
  os_status_servico o = Some prev -> In prev statusAntesFinalizacao ->
  upd_status_servico updates = Some (Some novo) -> In novo statusFinalizacao ->
  join_orcamento_pecas (db w) o = Some ops -> ops <> [] ->
  fails (SelectOsAtual id) = false -> fails (UpdateOs id updates) = false ->
  let w' := snd (useUpdateOrdemServico fails id updates w) in
  (exists tail,
      events w' = events w ++ [Request (SelectOsAtual id); Request (UpdateOs id updates);
                               Request (AtualizarEstoquePecas (pecas_para_processar ops))]
                           ++ tail
      /\ existsb eh_request tail = false)
  /\ (fails (AtualizarEstoquePecas (pecas_para_processar ops)) = false ->
      forall p, pecas_estoque (db w') p
                = (pecas_estoque (db w) p - soma_quantidade p (pecas_para_processar ops))%Z).
Proof.
  intros Hrows Hprev Hinp Hnovo Hinn Hops Hne Hf1 Hf2 w'; subst w'.
  unfold useUpdateOrdemServico, useMutation, updateOrdemServico_mutationFn.
  rewrite bind_call_ok by exact Hf1.
  rewrite (q_os_atual_single _ _ _ Hrows); cbn [fst snd throw_if_error].
  rewrite bind_ret, bind_call_ok by exact Hf2.
  rewrite (q_update_os_single _ _ _ _ Hrows); cbn [fst snd throw_if_error].
  rewrite bind_ret. cbn [osa_row osa_orcamento_pecas]. rewrite Hnovo, Hprev, Hops.
  destruct ops as [|op ops]; [congruence|].
  destruct Hinp as [<-|[<-|[]]]; destruct Hinn as [<-|[<-|[]]];
    cbn -[call bind pecas_para_processar];
    remember (pecas_para_processar (op :: ops)) as L eqn:HL;
    rewrite ?bind_ret, !bind_assoc;
    (destruct (fails (AtualizarEstoquePecas L)) eqn:Hf3;
     [rewrite bind_call_fail by exact Hf3 | rewrite bind_call_ok by exact Hf3]);
    cbn -[pecas_para_processar ajustar_estoque];
    (split; [eexists; split; [rewrite <- !app_assoc; reflexivity | reflexivity]
            | intros Hf p; try discriminate; rewrite ajustar_estoque_spec; lia]).
Qed.

(** C2: completion back to pre-completion.  Symmetric to C1: exactly one
    inventory-return call with every part of the linked estimate, and, when
    it succeeds, each part's stock increases by its listed quantity. *)
Theorem update_reabertura_devolve_estoque fails w id updates o ops prev novo :
  os_rows id (db w) = [o] ->
  os_status_servico o = Some prev -> In prev statusFinalizacao ->
  upd_status_servico updates = Some (Some novo) -> In novo statusAntesFinalizacao ->
  join_orcamento_pecas (db w) o = Some ops -> ops <> [] ->
  fails (SelectOsAtual id) = false -> fails (UpdateOs id updates) = false ->
  let w' := snd (useUpdateOrdemServico fails id updates w) in
  (exists tail,
      events w' = events w ++ [Request (SelectOsAtual id); Request (UpdateOs id updates);
                               Request (DevolverEstoquePecas (pecas_para_processar ops))]
                           ++ tail
      /\ existsb eh_request tail = false)
  /\ (fails (DevolverEstoquePecas (pecas_para_processar ops)) = false ->
      forall p, pecas_estoque (db w') p
                = (pecas_estoque (db w) p + soma_quantidade p (pecas_para_processar ops))%Z).
Proof.
  intros Hrows Hprev Hinp Hnovo Hinn Hops Hne Hf1 Hf2 w'; subst w'.
  unfold useUpdateOrdemServico, useMutation, updateOrdemServico_mutationFn.
  rewrite bind_call_ok by exact Hf1.
  rewrite (q_os_atual_single _ _ _ Hrows); cbn [fst snd throw_if_error].
  rewrite bind_ret, bind_call_ok by exact Hf2.
  rewrite (q_update_os_single _ _ _ _ Hrows); cbn [fst snd throw_if_error].
  rewrite bind_ret. cbn [osa_row osa_orcamento_pecas]. rewrite Hnovo, Hprev, Hops.
  destruct ops as [|op ops]; [congruence|].
  destruct Hinp as [<-|[<-|[]]]; destruct Hinn as [<-|[<-|[]]];
    cbn -[call bind pecas_para_processar];
    remember (pecas_para_processar (op :: ops)) as L eqn:HL;
    rewrite ?bind_ret, !bind_assoc;
    (destruct (fails (DevolverEstoquePecas L)) eqn:Hf3;
     [rewrite bind_call_fail by exact Hf3 | rewrite bind_call_ok by exact Hf3]);
    cbn -[pecas_para_processar ajustar_estoque];
    (split; [eexists; split; [rewrite <- !app_assoc; reflexivity | reflexivity]
            | intros Hf p; try discriminate; rewrite ajustar_estoque_spec; lia]).
Qed.

(** C3: every other transition.  Whenever the order's previous status and
    the payload's status do not form a pre-completion to completion or a
    completion to pre-completion transition (no status in the payload, both
    in the same set, or one outside both sets), the update issues no call to
    either inventory hook and the stock is unchanged, whatever the service
    answers. *)
Theorem update_outras_transicoes_sem_estoque fails w id updates :
  (forall o, os_rows id (db w) = [o] ->
     ~ (exists prev novo, os_status_servico o = Some prev /\ In prev statusAntesFinalizacao
         /\ upd_status_servico updates = Some (Some novo) /\ In novo statusFinalizacao) /\
     ~ (exists prev novo, os_status_servico o = Some prev /\ In prev statusFinalizacao
         /\ upd_status_servico updates = Some (Some novo) /\ In novo statusAntesFinalizacao)) ->
  let w' := snd (useUpdateOrdemServico fails id updates w) in
  (exists novos, events w' = events w ++ novos
                 /\ existsb eh_consumo novos = false /\ existsb eh_devolucao novos = false)
  /\ pecas_estoque (db w') = pecas_estoque (db w).
Proof.
  intros Htr w'; subst w'.
  unfold useUpdateOrdemServico, useMutation, updateOrdemServico_mutationFn.
  destruct (fails (SelectOsAtual id)) eqn:Hf1.
  { rewrite bind_call_fail by exact Hf1; cbn.
    split; [eexists; split; [rewrite <- !app_assoc; reflexivity | auto] | reflexivity]. }
  rewrite bind_call_ok by exact Hf1.
  destruct (os_rows id (db w)) as [|o [|o' rest]] eqn:Hrows.
  2: { specialize (Htr o eq_refl) as [Hc Hd].
       rewrite (q_os_atual_single _ _ _ Hrows); cbn [fst snd throw_if_error].
       rewrite bind_ret.
       destruct (fails (UpdateOs id updates)) eqn:Hf2.
       { rewrite bind_call_fail by exact Hf2; cbn.
         split; [eexists; split; [rewrite <- !app_assoc; reflexivity | auto] | reflexivity]. }
       rewrite bind_call_ok by exact Hf2.
       rewrite (q_update_os_single _ _ _ _ Hrows); cbn [fst snd throw_if_error].
       rewrite bind_ret. cbn [osa_row osa_orcamento_pecas].
       destruct (truthy_status (upd_status_servico updates)) as [novo|] eqn:Hn;
         [|cbn; split; [eexists; split; [rewrite <- !app_assoc; reflexivity | auto] | reflexivity]].
       destruct (join_orcamento_pecas (db w) o) as [[|op ops]|];
         [cbn; split; [eexists; split; [rewrite <- !app_assoc; reflexivity | auto] | reflexivity]
         | |cbn; split; [eexists; split; [rewrite <- !app_assoc; reflexivity | auto] | reflexivity]].
       apply truthy_status_some in Hn.
       destruct (includes statusAntesFinalizacao (os_status_servico o)
                 && includes statusFinalizacao (Some novo)) eqn:H1.
       { exfalso; apply Hc. apply andb_true_iff in H1 as [H1 H2].
         apply includes_In in H1 as (prev & Hp & Hip).
         apply includes_In in H2 as (n & [= <-] & Hin). eauto 10. }
       destruct (includes statusFinalizacao (os_status_servico o)
                 && includes statusAntesFinalizacao (Some novo)) eqn:H2.
       { exfalso; apply Hd. apply andb_true_iff in H2 as [H3 H4].
         apply includes_In in H3 as (prev & Hp & Hip).
         apply includes_In in H4 as (n & [= <-] & Hin). eauto 10. }
       cbn -[statusAntesFinalizacao statusFinalizacao includes andb call bind pecas_para_processar].
       cbn.
       split; [eexists; split; [rewrite <- !app_assoc; reflexivity | auto] | reflexivity]. }
  all: unfold q_os_atual; rewrite Hrows; cbn.
  all: split; [eexists; split; [rewrite <- !app_assoc; reflexivity | auto] | reflexivity].
Qed.

(** ** Claims on the read operation *)

Lemma resolver_veiculo_row fails d os : osd_row (resolver_veiculo fails d os) = osd_row os.
Proof.
  unfold resolver_veiculo.
  destruct (osd_veiculo os) eqn:Hv; destruct (os_cliente_id (osd_row os)) as [c|]; auto.
  destruct (fails (SelectVeiculosDoCliente c)); auto.
  destruct (veiculos_do_cliente d c); cbn; auto.
Qed.

Lemma resolver_veiculo_veiculo fails d os :
  osd_veiculo (resolver_veiculo fails d os) = osd_veiculo os.
Proof.
  unfold resolver_veiculo.
  destruct (osd_veiculo os) eqn:Hv; destruct (os_cliente_id (osd_row os)) as [c|]; auto.
  destruct (fails (SelectVeiculosDoCliente c)); auto.
  destruct (veiculos_do_cliente d c); cbn; auto.
Qed.

Lemma queryFn_db fails w : db (snd (ordensServico_queryFn fails w)) = db w.
Proof.
  destruct (fails SelectOrdensDetalhes) eqn:Hf;
    [rewrite queryFn_fail by exact Hf | rewrite queryFn_ok by exact Hf]; reflexivity.
Qed.

(** Every order the read returns comes from a stored row, through the
    joins and the callback. *)
Lemma queryFn_result fails w l x :
  fst (ordensServico_queryFn fails w) = inr l -> In x l ->
  exists o, In o (ordem_servico_t (db w))
            /\ x = resolver_veiculo fails (db w) (detalhar (db w) o).
Proof.
  destruct (fails SelectOrdensDetalhes) eqn:Hf;
    [rewrite queryFn_fail by exact Hf; discriminate | rewrite queryFn_ok by exact Hf].
  cbn; intros [= <-] Hx.
  apply in_map_iff in Hx as (y & <- & Hy).
  unfold ordens_detalhadas in Hy; apply in_map_iff in Hy as (o & <- & Ho).
  rewrite In_sort_created_desc in Ho; eauto.
Qed.

Lemma detalhar_row d o : osd_row (detalhar d o) = o.
Proof. reflexivity. Qed.

Lemma queryFn_rows fails w l :
  fst (ordensServico_queryFn fails w) = inr l ->
  map osd_row l = sort_created_desc (ordem_servico_t (db w)).
Proof.
  intros H. destruct (fails SelectOrdensDetalhes) eqn:Hf.
  - rewrite queryFn_fail in H by exact Hf. discriminate.
  - rewrite queryFn_ok in H by exact Hf. cbn in H. injection H as <-.
    unfold ordens_detalhadas. rewrite !map_map.
    erewrite map_ext; [apply map_id|]. intros a; cbn.
    now rewrite resolver_veiculo_row.
Qed.

(** C4, as stated, fails: when the lookup of the customer's vehicles
    answers with an error, the order is still returned, without the
    fallback, although the customer has a vehicle. *)
Lemma leitura_veiculo_fallback_counterexample :
  ~ (forall fails w l, fst (ordensServico_queryFn fails w) = inr l ->
     forall x, In x l -> osd_veiculo x = None ->
     forall c, os_cliente_id (osd_row x) = Some c ->
     forall v vs, veiculos_do_cliente (db w) c = v :: vs ->
     osd_cliente_veiculo x = Some v).
Proof.
  intros H.
  specialize (H falha_consulta_veiculo (mkWorld db_exemplo []) _ eq_refl).
  specialize (H _ (or_introl eq_refl) eq_refl 5 eq_refl _ _ eq_refl).
  vm_compute in H. discriminate.
Qed.

(** C4 (amended): for every returned order without a directly joined
    vehicle whose customer reference is [c], the fallback [cliente_veiculo]
    is the first of the customer's vehicles when the lookup succeeds and
    the customer has one, and is absent when the customer has none or the
    lookup fails; every returned order carries a stored row, and the read
    changes no stored data. *)
Theorem leitura_veiculo_fallback fails w :
  db (snd (ordensServico_queryFn fails w)) = db w /\
  forall l, fst (ordensServico_queryFn fails w) = inr l ->
  forall x, In x l ->
    In (osd_row x) (ordem_servico_t (db w)) /\
    (osd_veiculo x = None -> forall c, os_cliente_id (osd_row x) = Some c ->
       osd_cliente_veiculo x =
         if fails (SelectVeiculosDoCliente c) then None
         else hd_error (veiculos_do_cliente (db w) c)).
Proof.
  split; [apply queryFn_db|].
  intros l Hl x Hx.
  destruct (queryFn_result fails w l x Hl Hx) as (o & Ho & ->).
  rewrite resolver_veiculo_row, resolver_veiculo_veiculo.
  split; [exact Ho|].
  intros Hv c Hc. revert Hv Hc.
  unfold resolver_veiculo, detalhar; cbn.
  intros -> ->.
  destruct (fails (SelectVeiculosDoCliente c)); auto.
  destruct (veiculos_do_cliente (db w) c); auto.
Qed.

(** C5, as stated, fails: an error of the secondary vehicle lookup is not
    propagated; the read returns its result. *)
Lemma leitura_propaga_erros_counterexample :
  ~ (forall fails w,
       (exists r, In (Request r) (events (snd (ordensServico_queryFn fails w)))
                  /\ fails r = true) ->
       exists e, fst (ordensServico_queryFn fails w) = inl e).
Proof.
  intros H.
  destruct (H falha_consulta_veiculo (mkWorld db_exemplo [])) as [e He].
  - exists (SelectVeiculosDoCliente 5). vm_compute. split; [tauto | reflexivity].
  - vm_compute in He. discriminate.
Qed.

(** C5 (amended): the read fails exactly when the main list query fails,
    and then with that query's error.  Errors of the secondary vehicle
    lookups are discarded: the read still returns the stored orders (newest
    first), and an order whose vehicle lookup failed carries no
    [cliente_veiculo]. *)
Theorem leitura_propaga_erro_principal fails w :
  (fails SelectOrdensDetalhes = true ->
   fst (ordensServico_queryFn fails w) = inl (ServiceError SelectOrdensDetalhes)) /\
  (fails SelectOrdensDetalhes = false ->
   exists l, fst (ordensServico_queryFn fails w) = inr l
     /\ map osd_row l = sort_created_desc (ordem_servico_t (db w))
     /\ (forall x, In x l -> forall c,
          osd_veiculo x = None -> os_cliente_id (osd_row x) = Some c ->
          fails (SelectVeiculosDoCliente c) = true ->
          osd_cliente_veiculo x = None)).
Proof.
  split; intros Hf.
  - now rewrite queryFn_fail.
  - assert (Hl : fst (ordensServico_queryFn fails w)
                 = inr (map (resolver_veiculo fails (db w)) (ordens_detalhadas (db w))))
      by (rewrite queryFn_ok by exact Hf; reflexivity).
    eexists; split; [exact Hl|].
    split; [exact (queryFn_rows _ _ _ Hl)|].
    intros x Hx c Hv Hc Hfc.
    destruct (queryFn_result _ _ _ _ Hl Hx) as [o [_ ->]].
    rewrite resolver_veiculo_veiculo in Hv. rewrite resolver_veiculo_row in Hc.
    unfold resolver_veiculo. rewrite Hv, Hc, Hfc. reflexivity.
Qed.

(** C10: an order without a joined vehicle and without a customer reference
    gets no secondary lookup (the callback issues nothing and returns the
    order as it is) and no fallback field in the read's result. *)
Theorem leitura_sem_cliente_sem_consulta fails :
  (forall os w, osd_veiculo os = None -> os_cliente_id (osd_row os) = None ->
     com_veiculo_do_cliente fails os w = (inr os, w)) /\
  (forall w l, fst (ordensServico_queryFn fails w) = inr l ->
     forall x, In x l -> osd_veiculo x = None -> os_cliente_id (osd_row x) = None ->
     osd_cliente_veiculo x = None).
Proof.
  split.
  - intros os w Hv Hc. unfold com_veiculo_do_cliente. now rewrite Hv, Hc.
  - intros w l Hl x Hx.
    destruct (queryFn_result fails w l x Hl Hx) as (o & Ho & ->).
    rewrite resolver_veiculo_row, resolver_veiculo_veiculo.
    unfold resolver_veiculo, detalhar; cbn. intros -> ->. reflexivity.
Qed.

(** ** The delete operation, evaluated *)

Ltac passo :=
  match goal with
  | |- context [bind (bind _ _) _ _] => rewrite bind_assoc
  | |- context [bind (ret _) _ _] => rewrite bind_ret
  | |- context [bind (throw _) _ _] => rewrite bind_throw
  | |- context [bind (call ?f ?r ?q) _ ?w] =>
      let H := fresh "Hf" in
      destruct (f r) eqn:H;
      [rewrite (bind_call_fail f r q _ w H) | rewrite (bind_call_ok f r q _ w H)]
  end.

Lemma q_os_orcamento_id_single id d o :
  os_rows id d = [o] -> q_os_orcamento_id id d = (inr (os_orcamento_id o), d).
Proof. intros H; unfold q_os_orcamento_id; now rewrite H. Qed.

Lemma q_os_orcamento_id_none id d :
  length (os_rows id d) <> 1 ->
  exists e, q_os_orcamento_id id d = (inl e, d).
Proof.
  unfold q_os_orcamento_id; destruct (os_rows id d) as [|x [|y l]]; cbn; eauto.
  intros H; now contradiction H.
Qed.

Lemma os_rows_delete id d :
  os_rows id (with_ordens d (filter (fun o => negb (Nat.eqb (os_id o) id))
                                   (ordem_servico_t d))) = [].
Proof.
  unfold os_rows; cbn.
  induction (ordem_servico_t d) as [|x l IH]; cbn; auto.
  destruct (Nat.eqb (os_id x) id) eqn:E; cbn; rewrite ?E; auto.
Qed.

(** C6: deleting an order linked to estimate [oid] (lookup and delete
    succeeding) issues, after the delete, one update of estimate [oid] to
    "Pendente", which, when it succeeds, leaves every row of estimate [oid]
    with status exactly "Pendente"; deleting an order without a linked
    estimate issues no estimate update at all, whatever the service
    answers. *)
Theorem exclusao_orcamento_pendente fails w id o :
  os_rows id (db w) = [o] ->
  let w' := snd (useDeleteOrdemServico fails id w) in
  (forall oid, os_orcamento_id o = Some oid ->
     fails (SelectOsOrcamentoId id) = false -> fails (DeleteOs id) = false ->
     (exists tail,
        events w' = events w ++ [Request (SelectOsOrcamentoId id); Request (DeleteOs id);
                                 Request (UpdateOrcamentoStatus oid "Pendente")] ++ tail
        /\ existsb eh_request tail = false)
     /\ os_rows id (db w') = []
     /\ (fails (UpdateOrcamentoStatus oid "Pendente") = false ->
         forall e, In e (orcamentos_t (db w')) -> orcamento_id e = oid ->
         orcamento_status e = "Pendente"))
  /\ (os_orcamento_id o = None ->
      exists novos, events w' = events w ++ novos /\ existsb eh_update_orcamento novos = false).
Proof.
  intros Hrows w'; subst w'.
  unfold useDeleteOrdemServico, useMutation, deleteOrdemServico_mutationFn.
  split.
  - intros oid Hoid Hf1 Hf2.
    rewrite bind_call_ok by exact Hf1.
    rewrite (q_os_orcamento_id_single _ _ _ Hrows), Hoid; cbn [fst snd throw_if_error].
    rewrite bind_ret, bind_call_ok by exact Hf2; cbn [fst snd throw_if_error q_delete_os].
    rewrite bind_ret, bind_assoc.
    destruct (fails (UpdateOrcamentoStatus oid "Pendente")) eqn:Hf3;
      [rewrite bind_call_fail by exact Hf3 | rewrite bind_call_ok by exact Hf3];
      cbn -[with_ordens os_rows];
      (split; [eexists; split; [rewrite <- !app_assoc; reflexivity | reflexivity]|]);
      (split; [apply os_rows_delete|]); intros Hf; try discriminate.
    intros e He Hid. cbn in He.
    apply in_map_iff in He as (e0 & <- & _).
    destruct (Nat.eqb (orcamento_id e0) oid) eqn:E; [reflexivity|].
    apply Nat.eqb_neq in E; contradiction.
  - intros Hnone.
    repeat passo; cbn; try (eexists; split; [rewrite <- !app_assoc; reflexivity | reflexivity]).
    rewrite Hrows; cbn; rewrite Hnone.
    repeat passo; cbn; (eexists; split; [rewrite <- !app_assoc; reflexivity | reflexivity]).
Qed.

(** C7: the first failing step of the delete aborts the rest.  A failed
    lookup of the order (service error, or no single row) issues neither the
    delete nor an estimate update and changes nothing; a failed delete issues
    no estimate update and changes nothing; a failed estimate reset leaves
    the order deleted, and no further request (no compensation) follows. *)
Theorem exclusao_aborta_sem_compensacao fails w id :
  let res := fst (useDeleteOrdemServico fails id w) in
  let w' := snd (useDeleteOrdemServico fails id w) in
  ((fails (SelectOsOrcamentoId id) = true \/ length (os_rows id (db w)) <> 1) ->
     (exists e, res = inl e) /\ db w' = db w /\
     exists novos, events w' = events w ++ [Request (SelectOsOrcamentoId id)] ++ novos
                   /\ existsb eh_request novos = false)
  /\ (forall o, os_rows id (db w) = [o] -> fails (SelectOsOrcamentoId id) = false ->
      fails (DeleteOs id) = true ->
      res = inl (ServiceError (DeleteOs id)) /\ db w' = db w /\
      exists novos, events w' = events w ++ [Request (SelectOsOrcamentoId id);
                                             Request (DeleteOs id)] ++ novos
                    /\ existsb eh_request novos = false)
  /\ (forall o oid, os_rows id (db w) = [o] -> os_orcamento_id o = Some oid ->
      fails (SelectOsOrcamentoId id) = false -> fails (DeleteOs id) = false ->
      fails (UpdateOrcamentoStatus oid "Pendente") = true ->
      res = inl (ServiceError (UpdateOrcamentoStatus oid "Pendente")) /\
      os_rows id (db w') = [] /\
      exists novos, events w' = events w ++ [Request (SelectOsOrcamentoId id);
                                             Request (DeleteOs id);
                                             Request (UpdateOrcamentoStatus oid "Pendente")]
                                         ++ novos
                    /\ existsb eh_request novos = false).
Proof.
  intros res w'; subst res w'.
  unfold useDeleteOrdemServico, useMutation, deleteOrdemServico_mutationFn.
  split; [|split].
  - intros [Hf1|Hlen].
    + rewrite bind_call_fail by exact Hf1; cbn.
      split; [eauto|]; split; [reflexivity|].
      eexists; split; [rewrite <- !app_assoc; reflexivity | reflexivity].
    + destruct (fails (SelectOsOrcamentoId id)) eqn:Hf1.
      * rewrite bind_call_fail by exact Hf1; cbn.
        split; [eauto|]; split; [reflexivity|].
        eexists; split; [rewrite <- !app_assoc; reflexivity | reflexivity].
      * rewrite bind_call_ok by exact Hf1.
        destruct (q_os_orcamento_id_none id (db w) Hlen) as [e He].
        rewrite He; cbn.
        split; [eauto|]; split; [reflexivity|].
        eexists; split; [rewrite <- !app_assoc; reflexivity | reflexivity].
  - intros o Hrows Hf1 Hf2.
    rewrite bind_call_ok by exact Hf1.
    rewrite (q_os_orcamento_id_single _ _ _ Hrows); cbn [fst snd throw_if_error].
    rewrite bind_ret, bind_call_fail by exact Hf2; cbn.
    split; [reflexivity|]; split; [reflexivity|].
    eexists; split; [rewrite <- !app_assoc; reflexivity | reflexivity].
  - intros o oid Hrows Hoid Hf1 Hf2 Hf3.
    rewrite bind_call_ok by exact Hf1.
    rewrite (q_os_orcamento_id_single _ _ _ Hrows), Hoid; cbn [fst snd throw_if_error].
    rewrite bind_ret, bind_call_ok by exact Hf2; cbn [fst snd throw_if_error q_delete_os].
    rewrite bind_ret, bind_assoc, bind_call_fail by exact Hf3.
    cbn -[with_ordens os_rows].
    split; [reflexivity|]; split; [apply os_rows_delete|].
    eexists; split; [rewrite <- !app_assoc; reflexivity | reflexivity].
Qed.

(** ** Notifications of the mutations *)

Lemma so_requests_ret {A} (a : A) : so_requests (ret a).
Proof. intros w; exists []; now rewrite app_nil_r. Qed.

Lemma so_requests_throw {A} e : so_requests (@throw A e).
Proof. intros w; exists []; now rewrite app_nil_r. Qed.

Lemma so_requests_throw_if_error {A} (r : error + A) : so_requests (throw_if_error r).
Proof. destruct r; [apply so_requests_throw | apply so_requests_ret]. Qed.

Lemma so_requests_call {A} fails r (q : database -> (error + A) * database) :
  so_requests (call fails r q).
Proof.
  intros w; exists [Request r]; split; [|reflexivity].
  unfold call; destruct (fails r); [reflexivity|]; now destruct (q (db w)).
Qed.

Lemma so_requests_bind {A B} (m : M A) (k : A -> M B) :
  so_requests m -> (forall a, so_requests (k a)) -> so_requests (bind m k).
Proof.
  intros Hm Hk w; unfold bind.
  destruct (Hm w) as (n1 & E1 & F1).
  destruct (m w) as [[e|a] w1]; cbn in E1 |- *.
  - exists n1; auto.
  - destruct (Hk a w1) as (n2 & E2 & F2).
    exists (n1 ++ n2); rewrite E2, E1, app_assoc; split; [reflexivity|].
    rewrite forallb_app, F1, F2; reflexivity.
Qed.

Ltac so_requests_tac :=
  repeat match goal with
  | |- so_requests (bind _ _) => apply so_requests_bind; [|intros ?]
  | |- so_requests (ret _) => apply so_requests_ret
  | |- so_requests (throw_if_error _) => apply so_requests_throw_if_error
  | |- so_requests (call _ _ _) => apply so_requests_call
  | |- so_requests (match ?x with _ => _ end) => destruct x
  | |- so_requests (if ?b then _ else _) => destruct b
  end.

Lemma update_mutationFn_so_requests fails id updates :
  so_requests (updateOrdemServico_mutationFn fails id updates).
Proof. unfold updateOrdemServico_mutationFn; cbv zeta; so_requests_tac. Qed.

Lemma create_mutationFn_so_requests fails o :
  so_requests (createOrdemServico_mutationFn fails o).
Proof. unfold createOrdemServico_mutationFn; so_requests_tac. Qed.

Lemma delete_mutationFn_so_requests fails id :
  so_requests (deleteOrdemServico_mutationFn fails id).
Proof. unfold deleteOrdemServico_mutationFn; so_requests_tac. Qed.

(** The log of a mutation: the body's requests, then the events of
    [onSuccess] or of [onError]. *)
Lemma useMutation_log {A} (m : M A) onS onE okEvs errEvs w :
  so_requests m ->
  (forall w, onS w = (inr tt, mkWorld (db w) (events w ++ okEvs))) ->
  (forall e w, onE e w = (inr tt, mkWorld (db w) (events w ++ errEvs e))) ->
  exists novos, forallb eh_request novos = true /\
    events (snd (useMutation m onS onE w))
    = events w ++ novos ++ match fst (useMutation m onS onE w) with
                           | inr _ => okEvs
                           | inl e => errEvs e
                           end.
Proof.
  intros Hm HS HE.
  destruct (Hm w) as (novos & E & F).
  exists novos; split; [exact F|].
  unfold useMutation. destruct (m w) as [[e|a] w1]; cbn in E |- *.
  - rewrite HE; cbn; now rewrite E, app_assoc.
  - rewrite HS; cbn; now rewrite E, app_assoc.
Qed.

Lemma forallb_eh_request_not_in l ev :
  forallb eh_request l = true -> eh_request ev = false -> ~ In ev l.
Proof.
  intros F Hev Hin. rewrite forallb_forall in F. specialize (F ev Hin); congruence.
Qed.

Ltac notificacao_tac ok err :=
  let novos := fresh "novos" in
  let F := fresh "F" in
  let E := fresh "E" in
  match goal with
  | |- context [useMutation ?m ?onS ?onE ?w] =>
      destruct (useMutation_log m onS onE ok err w) as (novos & F & E);
      [ first [ apply update_mutationFn_so_requests | apply create_mutationFn_so_requests
              | apply delete_mutationFn_so_requests ]
      | intros ?; cbv [bind emit]; cbn; now rewrite <- !app_assoc
      | intros ? ?; cbv [bind emit]; cbn; now rewrite <- !app_assoc | ];
      destruct (useMutation m onS onE w) as [[?|?] ?]; cbn in E |- *;
      eexists; (split; [exact E|]);
      repeat split; intros;
      repeat (rewrite in_app_iff || (cbn [In])); intuition (try discriminate);
      match goal with
      | H : In ?ev novos |- _ => exact (forallb_eh_request_not_in novos ev F eq_refl H)
      end
  end.

(** C8: for each of create, update and delete, whatever the service
    answers: when the operation fails, the log gets no cache invalidation and
    no success toast, and gets the error toast; when it succeeds, the log gets
    the invalidation of "ordens_servico" (and of "orcamentos" for the delete)
    and the success toast, and no error toast. *)
Theorem mutacoes_notificam_apenas_sucesso fails w :
  (forall o,
     let '(res, w') := useCreateOrdemServico fails o w in
     exists novos, events w' = events w ++ novos /\
     match res with
     | inl _ => (forall k, ~ In (InvalidateQueries k) novos)
                /\ (forall m, ~ In (ToastSuccess m) novos)
                /\ In (ToastError "Erro ao criar ordem de serviço") novos
     | inr _ => In (InvalidateQueries "ordens_servico") novos
                /\ In (ToastSuccess "Ordem de serviço criada com sucesso!") novos
                /\ (forall m, ~ In (ToastError m) novos)
     end)
  /\ (forall id updates,
     let '(res, w') := useUpdateOrdemServico fails id updates w in
     exists novos, events w' = events w ++ novos /\
     match res with
     | inl _ => (forall k, ~ In (InvalidateQueries k) novos)
                /\ (forall m, ~ In (ToastSuccess m) novos)
                /\ In (ToastError "Erro ao atualizar ordem de serviço") novos
     | inr _ => In (InvalidateQueries "ordens_servico") novos
                /\ In (ToastSuccess "Ordem de serviço atualizada com sucesso!") novos
                /\ (forall m, ~ In (ToastError m) novos)
     end)
  /\ (forall id,
     let '(res, w') := useDeleteOrdemServico fails id w in
     exists novos, events w' = events w ++ novos /\
     match res with
     | inl _ => (forall k, ~ In (InvalidateQueries k) novos)
                /\ (forall m, ~ In (ToastSuccess m) novos)
                /\ In (ToastError "Erro ao excluir ordem de serviço") novos
     | inr _ => In (InvalidateQueries "ordens_servico") novos
                /\ In (InvalidateQueries "orcamentos") novos
                /\ In (ToastSuccess "Ordem de serviço excluída com sucesso!") novos
                /\ (forall m, ~ In (ToastError m) novos)
     end).
Proof.
  split; [|split].
  - intros o; unfold useCreateOrdemServico.
    notificacao_tac
      [InvalidateQueries "ordens_servico"; ToastSuccess "Ordem de serviço criada com sucesso!"]
      (fun e => [ConsoleError "Erro ao criar ordem de serviço:" e;
                 ToastError "Erro ao criar ordem de serviço"]).
  - intros id updates; unfold useUpdateOrdemServico.
    notificacao_tac
      [InvalidateQueries "ordens_servico"; ToastSuccess "Ordem de serviço atualizada com sucesso!"]
      (fun e => [ConsoleError "Erro ao atualizar ordem de serviço:" e;
                 ToastError "Erro ao atualizar ordem de serviço"]).
  - intros id; unfold useDeleteOrdemServico.
    notificacao_tac
      [InvalidateQueries "ordens_servico"; InvalidateQueries "orcamentos";
       ToastSuccess "Ordem de serviço excluída com sucesso!"]
      (fun e => [ConsoleError "Erro ao excluir ordem de serviço:" e;
                 ToastError "Erro ao excluir ordem de serviço"]).
Qed.

Lemma status_conjuntos_disjuntos x :
  includes statusAntesFinalizacao x = true -> includes statusFinalizacao x = false.
Proof.
  destruct x as [s|]; [|discriminate]. unfold includes; cbn.
  destruct (String.eqb s "Andamento") eqn:E1;
    [apply String.eqb_eq in E1; subst; reflexivity|].
  destruct (String.eqb s "Aguardando Peças") eqn:E2;
    [apply String.eqb_eq in E2; subst; reflexivity|].
  discriminate.
Qed.

Ltac falha_reportada :=
  intros ? Hin Hfr; cbn [app In] in Hin;
  repeat (destruct Hin as [Hin|Hin];
          [first [discriminate Hin
                 | injection Hin as <-;
                   first [reflexivity
                         | exfalso;
                           match goal with
                           | Ht : ?f ?a = true, Hn : ?f ?b = false |- _ =>
                               assert (E : f a = f b) by reflexivity; congruence
                           end]] |]);
  destruct Hin.

(** C9: the update is not atomic and compensates nothing.  Once the lookup
    and the row update have succeeded, the stored row keeps the update
    whatever happens next; every request after the row update is an
    inventory adjustment, at most one is issued (no reverse adjustment
    undoes it), a failure of any request issued after the row update makes
    the operation report that request's error, and the only errors the
    operation can still report are those of that adjustment. *)
Theorem update_sem_rollback fails w id updates o :
  os_rows id (db w) = [o] ->
  fails (SelectOsAtual id) = false -> fails (UpdateOs id updates) = false ->
  let res := fst (useUpdateOrdemServico fails id updates w) in
  let w' := snd (useUpdateOrdemServico fails id updates w) in
  os_rows id (db w') = [apply_update updates o]
  /\ (exists novos,
        events w' = events w ++ [Request (SelectOsAtual id); Request (UpdateOs id updates)]
                             ++ novos
        /\ forallb (fun ev => negb (eh_request ev) || eh_ajuste ev) novos = true
        /\ length (filter eh_ajuste novos) <= 1
        /\ (forall r, In (Request r) novos -> fails r = true -> res = inl (ServiceError r)))
  /\ (forall e, res = inl e ->
       exists l, e = ServiceError (AtualizarEstoquePecas l)
                 \/ e = ServiceError (DevolverEstoquePecas l)).
Proof.
  intros Hrows Hf1 Hf2 res w'; subst res w'.
  assert (Hr : forall est,
    os_rows id (with_estoque
      (with_ordens (db w) (map (fun o => if Nat.eqb (os_id o) id then apply_update updates o else o)
                               (ordem_servico_t (db w)))) est) = [apply_update updates o]).
  { intros est; unfold os_rows; cbn. now apply filter_update_single. }
  assert (Hr0 : os_rows id
      (with_ordens (db w) (map (fun o => if Nat.eqb (os_id o) id then apply_update updates o else o)
                               (ordem_servico_t (db w)))) = [apply_update updates o]).
  { unfold os_rows; cbn. now apply filter_update_single. }
  unfold useUpdateOrdemServico, useMutation, updateOrdemServico_mutationFn.
  rewrite bind_call_ok by exact Hf1.
  rewrite (q_os_atual_single _ _ _ Hrows); cbn [fst snd throw_if_error].
  rewrite bind_ret, bind_call_ok by exact Hf2.
  rewrite (q_update_os_single _ _ _ _ Hrows); cbn [fst snd throw_if_error].
  rewrite bind_ret. cbn [osa_row osa_orcamento_pecas].
  destruct (truthy_status (upd_status_servico updates)) as [novo|];
    [destruct (join_orcamento_pecas (db w) o) as [[|op ops]|]|].
  2: { destruct (includes statusAntesFinalizacao (os_status_servico o)
                 && includes statusFinalizacao (Some novo)) eqn:H1;
       destruct (includes statusFinalizacao (os_status_servico o)
                 && includes statusAntesFinalizacao (Some novo)) eqn:H2.
       { exfalso. apply andb_true_iff in H1 as [H1 _]; apply andb_true_iff in H2 as [H2 _].
         rewrite status_conjuntos_disjuntos in H2 by exact H1; discriminate. }
       all: cbn -[call bind os_rows with_ordens with_estoque pecas_para_processar].
       all: repeat passo; cbn -[os_rows with_ordens with_estoque pecas_para_processar].
       all: split; [first [exact Hr0 | apply Hr] |].
       all: split; [eexists; split; [rewrite <- !app_assoc; reflexivity
                                    | split; [reflexivity | split; [cbn; auto | falha_reportada]]] |].
       all: intros e He; try discriminate; injection He as <-; eauto. }
  all: cbn -[os_rows with_ordens].
  all: split; [exact Hr0 |].
  all: split; [eexists; split; [rewrite <- !app_assoc; reflexivity
                               | split; [reflexivity | split; [cbn; auto | falha_reportada]]] |].
  all: intros e He; discriminate.
Qed.

(** Witnesses: the theorems above applied to the example database. *)

Lemma update_conclusao_consome_estoque_witness :
  let w' := snd (useUpdateOrdemServico nunca_falha 1 (para_status "Finalizado")
                   (mkWorld (db_exemplo_status "Andamento") [])) in
  (exists tail,
      events w' = [] ++ [Request (SelectOsAtual 1); Request (UpdateOs 1 (para_status "Finalizado"));
                         Request (AtualizarEstoquePecas [mkPecaProcessar 100 2])] ++ tail
      /\ existsb eh_request tail = false)
  /\ (nunca_falha (AtualizarEstoquePecas [mkPecaProcessar 100 2]) = false ->
      forall p, pecas_estoque (db w') p
                = Z.sub (pecas_estoque (db_exemplo_status "Andamento") p)
                        (soma_quantidade p [mkPecaProcessar 100 2])).
Proof.
  apply (update_conclusao_consome_estoque nunca_falha (mkWorld (db_exemplo_status "Andamento") [])
           1 (para_status "Finalizado")
           (mkOrdemServico 1 (Some 5) None (Some 10) (Some "Aprovado") (Some "Andamento") 0)
           [mkOrcamentoPeca 10 100 2] "Andamento" "Finalizado");
    try reflexivity; try discriminate; simpl; auto.
Defined.

Lemma update_reabertura_devolve_estoque_witness :
  let w' := snd (useUpdateOrdemServico nunca_falha 1 (para_status "Aguardando Peças")
                   (mkWorld (db_exemplo_status "Entregue") [])) in
  (exists tail,
      events w' = [] ++ [Request (SelectOsAtual 1);
                         Request (UpdateOs 1 (para_status "Aguardando Peças"));
                         Request (DevolverEstoquePecas [mkPecaProcessar 100 2])] ++ tail
      /\ existsb eh_request tail = false)
  /\ (nunca_falha (DevolverEstoquePecas [mkPecaProcessar 100 2]) = false ->
      forall p, pecas_estoque (db w') p
                = Z.add (pecas_estoque (db_exemplo_status "Entregue") p)
                        (soma_quantidade p [mkPecaProcessar 100 2])).
Proof.
  apply (update_reabertura_devolve_estoque nunca_falha (mkWorld (db_exemplo_status "Entregue") [])
           1 (para_status "Aguardando Peças")
           (mkOrdemServico 1 (Some 5) None (Some 10) (Some "Aprovado") (Some "Entregue") 0)
           [mkOrcamentoPeca 10 100 2] "Entregue" "Aguardando Peças");
    try reflexivity; try discriminate; simpl; auto.
Defined.

Lemma update_outras_transicoes_sem_estoque_witness :
  let w' := snd (useUpdateOrdemServico nunca_falha 1 (para_status "Aguardando Peças")
                   (mkWorld (db_exemplo_status "Andamento") [])) in
  (exists novos, events w' = [] ++ novos
                 /\ existsb eh_consumo novos = false /\ existsb eh_devolucao novos = false)
  /\ pecas_estoque (db w') = pecas_estoque (db_exemplo_status "Andamento").
Proof.
  apply (update_outras_transicoes_sem_estoque nunca_falha
           (mkWorld (db_exemplo_status "Andamento") []) 1 (para_status "Aguardando Peças")).
  intros o Ho; vm_compute in Ho; injection Ho as <-.
  split; intros (prev & novo & Hp & Hip & Hu & Hin); injection Hu as <-;
    injection Hp as <-; simpl in *; intuition discriminate.
Defined.

Lemma exclusao_orcamento_pendente_witness :
  let w := mkWorld db_exemplo [] in
  let w' := snd (useDeleteOrdemServico nunca_falha 1 w) in
  (forall oid, os_orcamento_id os_exemplo = Some oid ->
     nunca_falha (SelectOsOrcamentoId 1) = false -> nunca_falha (DeleteOs 1) = false ->
     (exists tail,
        events w' = events w ++ [Request (SelectOsOrcamentoId 1); Request (DeleteOs 1);
                                 Request (UpdateOrcamentoStatus oid "Pendente")] ++ tail
        /\ existsb eh_request tail = false)
     /\ os_rows 1 (db w') = []
     /\ (nunca_falha (UpdateOrcamentoStatus oid "Pendente") = false ->
         forall e, In e (orcamentos_t (db w')) -> orcamento_id e = oid ->
         orcamento_status e = "Pendente"))
  /\ (os_orcamento_id os_exemplo = None ->
      exists novos, events w' = events w ++ novos /\ existsb eh_update_orcamento novos = false).
Proof.
  apply (exclusao_orcamento_pendente nunca_falha (mkWorld db_exemplo []) 1 os_exemplo).
  reflexivity.
Defined.

Lemma update_sem_rollback_witness :
  let w := mkWorld db_exemplo [] in
  let res := fst (useUpdateOrdemServico falha_estoque 1 para_finalizado w) in
  let w' := snd (useUpdateOrdemServico falha_estoque 1 para_finalizado w) in
  res = inl (ServiceError (AtualizarEstoquePecas [mkPecaProcessar 100 2]))
  /\ os_rows 1 (db w') = [apply_update para_finalizado os_exemplo]
  /\ (exists novos,
        events w' = events w ++ [Request (SelectOsAtual 1); Request (UpdateOs 1 para_finalizado)]
                             ++ novos
        /\ forallb (fun ev => negb (eh_request ev) || eh_ajuste ev) novos = true
        /\ length (filter eh_ajuste novos) <= 1
        /\ (forall r, In (Request r) novos -> falha_estoque r = true ->
              res = inl (ServiceError r)))
  /\ (forall e, res = inl e ->
       exists l, e = ServiceError (AtualizarEstoquePecas l)
                 \/ e = ServiceError (DevolverEstoquePecas l)).
Proof.
  intros w res w'.
  split; [vm_compute; reflexivity|].
  apply (update_sem_rollback falha_estoque (mkWorld db_exemplo []) 1 para_finalizado os_exemplo);
    reflexivity.
Defined.


(** ** Further properties of the hooks *)

Lemma q_os_atual_none id d :
  length (os_rows id d) <> 1 -> exists e, q_os_atual id d = (inl e, d).
Proof.
  unfold q_os_atual; destruct (os_rows id d) as [|x [|y l]]; cbn; eauto.
  intros H; now contradiction H.
Qed.

Lemma os_rows_update_other id id' u d :
  id' <> id ->
  os_rows id' (with_ordens d (map (fun o => if Nat.eqb (os_id o) id then apply_update u o else o)
                                  (ordem_servico_t d)))
  = os_rows id' d.
Proof.
  intros Hne; unfold os_rows; cbn.
  induction (ordem_servico_t d) as [|x l IH]; cbn; auto.
  destruct (Nat.eqb (os_id x) id) eqn:E; cbn.
  - apply Nat.eqb_eq in E. rewrite E.
    destruct (Nat.eqb id id') eqn:E'; [apply Nat.eqb_eq in E'; congruence|]. exact IH.
  - destruct (Nat.eqb (os_id x) id'); [f_equal|]; exact IH.
Qed.

(** Updating an order that cannot be read back (the lookup fails, or no
    single row has the id): the operation fails, issues no row update and
    no inventory call, and changes no stored data. *)
Theorem update_sem_linha_nao_altera fails w id updates :
  (fails (SelectOsAtual id) = true \/ length (os_rows id (db w)) <> 1) ->
  (exists e, fst (useUpdateOrdemServico fails id updates w) = inl e)
  /\ db (snd (useUpdateOrdemServico fails id updates w)) = db w
  /\ exists novos,
       events (snd (useUpdateOrdemServico fails id updates w))
       = events w ++ [Request (SelectOsAtual id)] ++ novos
       /\ existsb eh_request novos = false.
Proof.
  unfold useUpdateOrdemServico, useMutation, updateOrdemServico_mutationFn.
  intros Hc.
  destruct (fails (SelectOsAtual id)) eqn:Hf1.
  - rewrite bind_call_fail by exact Hf1; cbn.
    split; [eauto|]; split; [reflexivity|].
    eexists; split; [rewrite <- !app_assoc; reflexivity | reflexivity].
  - destruct Hc as [Hc|Hlen]; [discriminate|].
    rewrite bind_call_ok by exact Hf1.
    destruct (q_os_atual_none id (db w) Hlen) as [e He]; rewrite He; cbn.
    split; [eauto|]; split; [reflexivity|].
    eexists; split; [rewrite <- !app_assoc; reflexivity | reflexivity].
Qed.

(** A failing row update: the operation fails with that error, issues no
    inventory call after it, and changes no stored data. *)
Theorem update_falha_linha_nao_altera fails w id updates o :
  os_rows id (db w) = [o] ->
  fails (SelectOsAtual id) = false -> fails (UpdateOs id updates) = true ->
  fst (useUpdateOrdemServico fails id updates w) = inl (ServiceError (UpdateOs id updates))
  /\ db (snd (useUpdateOrdemServico fails id updates w)) = db w
  /\ exists novos,
       events (snd (useUpdateOrdemServico fails id updates w))
       = events w ++ [Request (SelectOsAtual id); Request (UpdateOs id updates)] ++ novos
       /\ existsb eh_request novos = false.
Proof.
  intros Hrows Hf1 Hf2.
  unfold useUpdateOrdemServico, useMutation, updateOrdemServico_mutationFn.
  rewrite bind_call_ok by exact Hf1.
  rewrite (q_os_atual_single _ _ _ Hrows); cbn [fst snd throw_if_error].
  rewrite bind_ret, bind_call_fail by exact Hf2; cbn.
  split; [reflexivity|]; split; [reflexivity|].
  eexists; split; [rewrite <- !app_assoc; reflexivity | reflexivity].
Qed.

(** A successful row update touches only the order with the given id:
    every other id reads back the same rows, whatever happens afterwards;
    and when the operation succeeds it returns the stored row with the
    payload's keys applied. *)
Theorem update_altera_so_a_linha fails w id updates o :
  os_rows id (db w) = [o] ->
  fails (SelectOsAtual id) = false -> fails (UpdateOs id updates) = false ->
  (forall id', id' <> id ->
     os_rows id' (db (snd (useUpdateOrdemServico fails id updates w))) = os_rows id' (db w))
  /\ (forall r, fst (useUpdateOrdemServico fails id updates w) = inr r ->
      r = apply_update updates o).
Proof.
  intros Hrows Hf1 Hf2.
  unfold useUpdateOrdemServico, useMutation, updateOrdemServico_mutationFn.
  rewrite bind_call_ok by exact Hf1.
  rewrite (q_os_atual_single _ _ _ Hrows); cbn [fst snd throw_if_error].
  rewrite bind_ret, bind_call_ok by exact Hf2.
  rewrite (q_update_os_single _ _ _ _ Hrows); cbn [fst snd throw_if_error].
  rewrite bind_ret. cbn [osa_row osa_orcamento_pecas].
  destruct (truthy_status (upd_status_servico updates)) as [novo|];
    [destruct (join_orcamento_pecas (db w) o) as [[|op ops]|]|].
  2: { destruct (includes statusAntesFinalizacao (os_status_servico o)
                 && includes statusFinalizacao (Some novo)) eqn:H1;
       destruct (includes statusFinalizacao (os_status_servico o)
                 && includes statusAntesFinalizacao (Some novo)) eqn:H2.
       { exfalso. apply andb_true_iff in H1 as [H1 _]; apply andb_true_iff in H2 as [H2 _].
         rewrite status_conjuntos_disjuntos in H2 by exact H1; discriminate. }
       all: cbn -[call bind os_rows with_ordens with_estoque pecas_para_processar].
       all: repeat passo; cbn -[os_rows with_ordens with_estoque pecas_para_processar].
       all: split; [intros id' Hne; rewrite <- (os_rows_update_other id id' updates (db w) Hne);
                    reflexivity
                   | intros r Hr; first [discriminate | injection Hr as <-; reflexivity]]. }
  all: cbn -[os_rows with_ordens].
  all: split; [intros id' Hne; apply os_rows_update_other; exact Hne
              | intros r Hr; injection Hr as <-; reflexivity].
Qed.

(** Updating an order whose estimate is missing or lists no part: whatever
    the statuses and whatever the service answers, no inventory call is
    issued and the stock is unchanged. *)
Theorem update_sem_pecas_sem_estoque fails w id updates :
  (forall o, os_rows id (db w) = [o] ->
     join_orcamento_pecas (db w) o = None \/ join_orcamento_pecas (db w) o = Some []) ->
  (exists novos, events (snd (useUpdateOrdemServico fails id updates w)) = events w ++ novos
                 /\ existsb eh_ajuste novos = false)
  /\ pecas_estoque (db (snd (useUpdateOrdemServico fails id updates w))) = pecas_estoque (db w).
Proof.
  intros Hj.
  unfold useUpdateOrdemServico, useMutation, updateOrdemServico_mutationFn.
  destruct (fails (SelectOsAtual id)) eqn:Hf1.
  { rewrite bind_call_fail by exact Hf1; cbn.
    split; [eexists; split; [rewrite <- !app_assoc; reflexivity | auto] | reflexivity]. }
  rewrite bind_call_ok by exact Hf1.
  destruct (os_rows id (db w)) as [|o [|o' rest]] eqn:Hrows.
  2: { rewrite (q_os_atual_single _ _ _ Hrows); cbn [fst snd throw_if_error].
       rewrite bind_ret.
       destruct (fails (UpdateOs id updates)) eqn:Hf2.
       { rewrite bind_call_fail by exact Hf2; cbn.
         split; [eexists; split; [rewrite <- !app_assoc; reflexivity | auto] | reflexivity]. }
       rewrite bind_call_ok by exact Hf2.
       rewrite (q_update_os_single _ _ _ _ Hrows); cbn [fst snd throw_if_error].
       rewrite bind_ret. cbn [osa_row osa_orcamento_pecas].
       destruct (Hj o eq_refl) as [Hn|Hn]; rewrite Hn;
         destruct (truthy_status (upd_status_servico updates)); cbn;
         (split; [eexists; split; [rewrite <- !app_assoc; reflexivity | auto] | reflexivity]). }
  all: unfold q_os_atual; rewrite Hrows; cbn.
  all: split; [eexists; split; [rewrite <- !app_assoc; reflexivity | auto] | reflexivity].
Qed.

Lemma includes_antes_finalizacao s :
  In s statusAntesFinalizacao -> includes statusAntesFinalizacao (Some s) = true.
Proof. intros H; apply includes_In; exists s; split; auto. Qed.

Lemma includes_finalizacao s :
  In s statusFinalizacao -> includes statusFinalizacao (Some s) = true.
Proof. intros H; apply includes_In; exists s; split; auto. Qed.

(** The database after a fully successful update with an inventory
    adjustment of sign [sign]. *)
Lemma update_db_consumo fails w id o ops prev novo :
  os_rows id (db w) = [o] -> os_status_servico o = Some prev ->
  In prev statusAntesFinalizacao -> In novo statusFinalizacao ->
  join_orcamento_pecas (db w) o = Some ops -> ops <> [] -> (forall r, fails r = false) ->
  db (snd (useUpdateOrdemServico fails id (para_status novo) w))
  = with_estoque
      (with_ordens (db w)
         (map (fun o => if Nat.eqb (os_id o) id then apply_update (para_status novo) o else o)
              (ordem_servico_t (db w))))
      (ajustar_estoque (-1)%Z (pecas_para_processar ops) (pecas_estoque (db w))).
Proof.
  intros Hrows Hprev Hinp Hinn Hops Hne Hf.
  unfold useUpdateOrdemServico, useMutation, updateOrdemServico_mutationFn.
  rewrite bind_call_ok by apply Hf.
  rewrite (q_os_atual_single _ _ _ Hrows); cbn [fst snd throw_if_error].
  rewrite bind_ret, bind_call_ok by apply Hf.
  rewrite (q_update_os_single _ _ _ _ Hrows); cbn [fst snd throw_if_error].
  rewrite bind_ret. cbn [osa_row osa_orcamento_pecas]. rewrite Hprev, Hops.
  destruct ops as [|op ops]; [congruence|].
  destruct Hinp as [<-|[<-|[]]]; destruct Hinn as [<-|[<-|[]]];
    cbn -[call bind pecas_para_processar];
    rewrite ?bind_ret, !bind_assoc, bind_call_ok by apply Hf; reflexivity.
Qed.

Lemma update_db_devolucao fails w id o ops prev novo :
  os_rows id (db w) = [o] -> os_status_servico o = Some prev ->
  In prev statusFinalizacao -> In novo statusAntesFinalizacao ->
  join_orcamento_pecas (db w) o = Some ops -> ops <> [] -> (forall r, fails r = false) ->
  db (snd (useUpdateOrdemServico fails id (para_status novo) w))
  = with_estoque
      (with_ordens (db w)
         (map (fun o => if Nat.eqb (os_id o) id then apply_update (para_status novo) o else o)
              (ordem_servico_t (db w))))
      (ajustar_estoque 1%Z (pecas_para_processar ops) (pecas_estoque (db w))).
Proof.
  intros Hrows Hprev Hinp Hinn Hops Hne Hf.
  unfold useUpdateOrdemServico, useMutation, updateOrdemServico_mutationFn.
  rewrite bind_call_ok by apply Hf.
  rewrite (q_os_atual_single _ _ _ Hrows); cbn [fst snd throw_if_error].
  rewrite bind_ret, bind_call_ok by apply Hf.
  rewrite (q_update_os_single _ _ _ _ Hrows); cbn [fst snd throw_if_error].
  rewrite bind_ret. cbn [osa_row osa_orcamento_pecas]. rewrite Hprev, Hops.
  destruct ops as [|op ops]; [congruence|].
  destruct Hinp as [<-|[<-|[]]]; destruct Hinn as [<-|[<-|[]]];
    cbn -[call bind pecas_para_processar];
    rewrite ?bind_ret, !bind_assoc, bind_call_ok by apply Hf;
    cbn -[pecas_para_processar ajustar_estoque]; reflexivity.
Qed.

Lemma os_rows_after_update id u d o est :
  os_rows id d = [o] ->
  os_rows id (with_estoque
    (with_ordens d (map (fun o => if Nat.eqb (os_id o) id then apply_update u o else o)
                        (ordem_servico_t d))) est) = [apply_update u o].
Proof. intros H; unfold os_rows in *; cbn. now apply filter_update_single. Qed.

(** Finalizing an order and then reopening it, with every request
    succeeding: the first update consumes the estimate's parts, the second
    returns them, and the stock ends where it started; the order ends with
    the reopened status. *)
Theorem update_finalizar_reabrir_restaura_estoque fails w id o ops prev fin reab :
  os_rows id (db w) = [o] -> os_status_servico o = Some prev ->
  In prev statusAntesFinalizacao -> In fin statusFinalizacao -> In reab statusAntesFinalizacao ->
  join_orcamento_pecas (db w) o = Some ops -> ops <> [] -> (forall r, fails r = false) ->
  let w1 := snd (useUpdateOrdemServico fails id (para_status fin) w) in
  let w2 := snd (useUpdateOrdemServico fails id (para_status reab) w1) in
  (forall p, pecas_estoque (db w1) p
             = (pecas_estoque (db w) p - soma_quantidade p (pecas_para_processar ops))%Z)
  /\ (forall p, pecas_estoque (db w2) p = pecas_estoque (db w) p)
  /\ os_rows id (db w2)
     = [apply_update (para_status reab) (apply_update (para_status fin) o)].
Proof.
  intros Hrows Hprev Hinp Hinf Hinr Hops Hne Hf w1 w2; subst w1 w2.
  pose proof (update_db_consumo fails w id o ops prev fin Hrows Hprev Hinp Hinf Hops Hne Hf)
    as Hd1.
  remember (snd (useUpdateOrdemServico fails id (para_status fin) w)) as w1 eqn:Hw1.
  assert (Hrows1 : os_rows id (db w1) = [apply_update (para_status fin) o]).
  { rewrite Hd1; now apply os_rows_after_update. }
  assert (Hops1 : join_orcamento_pecas (db w1) (apply_update (para_status fin) o) = Some ops).
  { rewrite Hd1, <- Hops; reflexivity. }
  assert (Hd2 := update_db_devolucao fails w1 id (apply_update (para_status fin) o) ops fin reab
                   Hrows1 eq_refl Hinf Hinr Hops1 Hne Hf).
  split; [|split].
  - intros p; rewrite Hd1; cbn [pecas_estoque with_estoque].
    rewrite ajustar_estoque_spec; lia.
  - intros p; rewrite Hd2; cbn [pecas_estoque with_estoque].
    rewrite ajustar_estoque_spec, Hd1; cbn [pecas_estoque with_estoque].
    rewrite ajustar_estoque_spec; lia.
  - rewrite Hd2; now apply os_rows_after_update.
Qed.

Lemma os_rows_delete_other id id' d :
  id' <> id ->
  os_rows id' (with_ordens d (filter (fun o => negb (Nat.eqb (os_id o) id))
                                    (ordem_servico_t d))) = os_rows id' d.
Proof.
  intros Hne; unfold os_rows; cbn.
  induction (ordem_servico_t d) as [|x l IH]; cbn; auto.
  destruct (Nat.eqb (os_id x) id) eqn:E; cbn.
  - apply Nat.eqb_eq in E. rewrite E.
    destruct (Nat.eqb id id') eqn:E'; [apply Nat.eqb_eq in E'; congruence|]. exact IH.
  - destruct (Nat.eqb (os_id x) id'); [f_equal|]; exact IH.
Qed.

Lemma orcamentos_update_other oid k st l :
  oid <> k ->
  filter (fun e => Nat.eqb (orcamento_id e) k)
    (map (fun e => if Nat.eqb (orcamento_id e) oid then mkOrcamento (orcamento_id e) st else e) l)
  = filter (fun e => Nat.eqb (orcamento_id e) k) l.
Proof.
  intros Hne; induction l as [|x l IH]; cbn; auto.
  destruct (Nat.eqb (orcamento_id x) oid) eqn:E; cbn.
  - apply Nat.eqb_eq in E; rewrite E.
    destruct (Nat.eqb oid k) eqn:E'; [apply Nat.eqb_eq in E'; congruence|]. exact IH.
  - destruct (Nat.eqb (orcamento_id x) k); [f_equal|]; exact IH.
Qed.

(** A successful delete: it returns the deleted id with the order's
    estimate id, removes the order only (every other id reads back the same
    rows), leaves every estimate other than the linked one as it was, and
    leaves the stock unchanged. *)
Theorem exclusao_sucesso fails w id o :
  os_rows id (db w) = [o] ->
  fails (SelectOsOrcamentoId id) = false -> fails (DeleteOs id) = false ->
  (forall oid, os_orcamento_id o = Some oid -> fails (UpdateOrcamentoStatus oid "Pendente") = false) ->
  let w' := snd (useDeleteOrdemServico fails id w) in
  fst (useDeleteOrdemServico fails id w) = inr (mkDeleteResult id (os_orcamento_id o))
  /\ os_rows id (db w') = []
  /\ (forall id', id' <> id -> os_rows id' (db w') = os_rows id' (db w))
  /\ (forall k, os_orcamento_id o <> Some k ->
        filter (fun e => Nat.eqb (orcamento_id e) k) (orcamentos_t (db w'))
        = filter (fun e => Nat.eqb (orcamento_id e) k) (orcamentos_t (db w)))
  /\ pecas_estoque (db w') = pecas_estoque (db w).
Proof.
  intros Hrows Hf1 Hf2 Hf3 w'; subst w'.
  unfold useDeleteOrdemServico, useMutation, deleteOrdemServico_mutationFn.
  rewrite bind_call_ok by exact Hf1.
  rewrite (q_os_orcamento_id_single _ _ _ Hrows); cbn [fst snd throw_if_error].
  rewrite bind_ret, bind_call_ok by exact Hf2; cbn [fst snd throw_if_error q_delete_os].
  rewrite bind_ret.
  destruct (os_orcamento_id o) as [oid|] eqn:Hoid.
  - rewrite bind_assoc, bind_call_ok by (apply Hf3; reflexivity).
    cbn -[with_ordens os_rows].
    split; [reflexivity|]; split; [apply os_rows_delete|]; split; [|split; [|reflexivity]].
    + intros id' Hne. apply os_rows_delete_other; exact Hne.
    + intros k Hk. apply orcamentos_update_other. congruence.
  - cbn -[with_ordens os_rows].
    split; [reflexivity|]; split; [apply os_rows_delete|]; split; [|split; [|reflexivity]].
    + intros id' Hne. apply os_rows_delete_other; exact Hne.
    + reflexivity.
Qed.

(** ** The read operation: order and secondary lookups *)

Lemma insert_desc_perm o l : Permutation (insert_desc o l) (o :: l).
Proof.
  induction l as [|x l IH]; cbn; auto.
  destruct (Nat.leb (os_created_at x) (os_created_at o)); auto.
  rewrite IH. apply perm_swap.
Qed.

Lemma sort_created_desc_perm l : Permutation (sort_created_desc l) l.
Proof.
  induction l as [|x l IH]; cbn; auto.
  rewrite insert_desc_perm. now apply perm_skip.
Qed.

Lemma insert_desc_sorted o l :
  Sorted mais_recente_primeiro l -> Sorted mais_recente_primeiro (insert_desc o l).
Proof.
  induction l as [|x l IH]; intros H; cbn.
  - repeat constructor.
  - destruct (Nat.leb (os_created_at x) (os_created_at o)) eqn:E.
    + apply Nat.leb_le in E. constructor; [exact H | constructor; exact E].
    + apply Nat.leb_gt in E. inversion H as [|? ? Hl Hhd]; subst.
      constructor; [apply IH; exact Hl|].
      destruct l as [|y l]; cbn.
      * constructor. unfold mais_recente_primeiro; lia.
      * destruct (Nat.leb (os_created_at y) (os_created_at o)).
        -- constructor. unfold mais_recente_primeiro; lia.
        -- inversion Hhd; subst. constructor; assumption.
Qed.

Lemma sort_created_desc_sorted l : Sorted mais_recente_primeiro (sort_created_desc l).
Proof. induction l as [|x l IH]; cbn; [constructor | now apply insert_desc_sorted]. Qed.





(** The list the read returns is ordered newest first by [created_at], and
    its rows are exactly the stored orders, each once. *)
Theorem leitura_ordenada_por_criacao fails w l :
  fst (ordensServico_queryFn fails w) = inr l ->
  Sorted mais_recente_primeiro (map osd_row l)
  /\ Permutation (map osd_row l) (ordem_servico_t (db w)).
Proof.
  intros H. rewrite (queryFn_rows _ _ _ H).
  split; [apply sort_created_desc_sorted | apply sort_created_desc_perm].
Qed.

Lemma consulta_veiculo_resolver fails d os :
  consulta_veiculo (resolver_veiculo fails d os) = consulta_veiculo os.
Proof.
  unfold consulta_veiculo. now rewrite resolver_veiculo_row, resolver_veiculo_veiculo.
Qed.

(** Secondary requests of the read: when the main select fails nothing else
    is requested.  When it succeeds, the main select is followed only by
    vehicle lookups, in the order of the returned list: for each returned
    order with no joined vehicle and a [cliente_id] [c], one lookup of the
    vehicles of [c], and nothing for the other orders. *)
Theorem leitura_consultas_veiculo fails w :
  (fails SelectOrdensDetalhes = true ->
   events (snd (ordensServico_queryFn fails w)) = events w ++ [Request SelectOrdensDetalhes])
  /\ (forall l, fst (ordensServico_queryFn fails w) = inr l ->
      events (snd (ordensServico_queryFn fails w))
        = events w ++ Request SelectOrdensDetalhes
                      :: flat_map (fun x => match osd_veiculo x, os_cliente_id (osd_row x) with
                                            | None, Some c => [Request (SelectVeiculosDoCliente c)]
                                            | _, _ => []
                                            end) l).
Proof.
  split.
  - intros Hf. now rewrite queryFn_fail by exact Hf.
  - intros l H. destruct (fails SelectOrdensDetalhes) eqn:Hf.
    + rewrite queryFn_fail in H by exact Hf. discriminate.
    + rewrite queryFn_ok in H |- * by exact Hf. cbn in H |- *. injection H as <-.
      f_equal. f_equal.
      induction (ordens_detalhadas (db w)) as [|x xs IH]; cbn; auto.
      rewrite IH. f_equal. symmetry. apply (consulta_veiculo_resolver fails (db w) x).
Qed.

(** ** Examples for the further properties *)

Lemma update_sem_linha_nao_altera_witness :
  let w := mkWorld db_exemplo [] in
  (exists e, fst (useUpdateOrdemServico nunca_falha 2 para_finalizado w) = inl e)
  /\ db (snd (useUpdateOrdemServico nunca_falha 2 para_finalizado w)) = db w
  /\ exists novos,
       events (snd (useUpdateOrdemServico nunca_falha 2 para_finalizado w))
       = events w ++ [Request (SelectOsAtual 2)] ++ novos
       /\ existsb eh_request novos = false.
Proof.
  apply (update_sem_linha_nao_altera nunca_falha (mkWorld db_exemplo []) 2 para_finalizado).
  right. vm_compute. discriminate.
Defined.

Lemma update_falha_linha_nao_altera_witness :
  let w := mkWorld db_exemplo [] in
  fst (useUpdateOrdemServico falha_update_os 1 para_finalizado w)
    = inl (ServiceError (UpdateOs 1 para_finalizado))
  /\ db (snd (useUpdateOrdemServico falha_update_os 1 para_finalizado w)) = db w
  /\ exists novos,
       events (snd (useUpdateOrdemServico falha_update_os 1 para_finalizado w))
       = events w ++ [Request (SelectOsAtual 1); Request (UpdateOs 1 para_finalizado)] ++ novos
       /\ existsb eh_request novos = false.
Proof.
  apply (update_falha_linha_nao_altera falha_update_os (mkWorld db_exemplo []) 1
           para_finalizado os_exemplo); reflexivity.
Defined.

Lemma update_altera_so_a_linha_witness :
  let w := mkWorld db_duas_ordens [] in
  (forall id', id' <> 1 ->
     os_rows id' (db (snd (useUpdateOrdemServico nunca_falha 1 para_finalizado w)))
     = os_rows id' (db w))
  /\ (forall r, fst (useUpdateOrdemServico nunca_falha 1 para_finalizado w) = inr r ->
      r = apply_update para_finalizado
            (mkOrdemServico 1 (Some 5) None None (Some "Aprovado") (Some "Andamento") 0)).
Proof.
  apply (update_altera_so_a_linha nunca_falha (mkWorld db_duas_ordens []) 1 para_finalizado
           (mkOrdemServico 1 (Some 5) None None (Some "Aprovado") (Some "Andamento") 0));
    reflexivity.
Defined.

Lemma update_sem_pecas_sem_estoque_witness :
  let w := mkWorld db_sem_orcamento [] in
  (exists novos, events (snd (useUpdateOrdemServico nunca_falha 1 para_finalizado w))
                 = events w ++ novos /\ existsb eh_ajuste novos = false)
  /\ pecas_estoque (db (snd (useUpdateOrdemServico nunca_falha 1 para_finalizado w)))
     = pecas_estoque (db w).
Proof.
  apply (update_sem_pecas_sem_estoque nunca_falha (mkWorld db_sem_orcamento []) 1
           para_finalizado).
  intros o Ho. vm_compute in Ho. injection Ho as <-. left. reflexivity.
Defined.

Lemma update_finalizar_reabrir_restaura_estoque_witness :
  let w := mkWorld db_exemplo [] in
  let w1 := snd (useUpdateOrdemServico nunca_falha 1 (para_status "Finalizado") w) in
  let w2 := snd (useUpdateOrdemServico nunca_falha 1 (para_status "Andamento") w1) in
  (forall p, pecas_estoque (db w1) p
             = Z.sub (pecas_estoque (db w) p)
                 (soma_quantidade p (pecas_para_processar [mkOrcamentoPeca 10 100 2])))
  /\ (forall p, pecas_estoque (db w2) p = pecas_estoque (db w) p)
  /\ os_rows 1 (db w2)
     = [apply_update (para_status "Andamento") (apply_update (para_status "Finalizado") os_exemplo)].
Proof.
  apply (update_finalizar_reabrir_restaura_estoque nunca_falha (mkWorld db_exemplo []) 1
           os_exemplo [mkOrcamentoPeca 10 100 2] "Andamento" "Finalizado" "Andamento");
    try reflexivity; try (cbn; tauto); try discriminate.
Defined.

Lemma exclusao_sucesso_witness :
  let w := mkWorld db_exemplo [] in
  let w' := snd (useDeleteOrdemServico nunca_falha 1 w) in
  fst (useDeleteOrdemServico nunca_falha 1 w) = inr (mkDeleteResult 1 (Some 10))
  /\ os_rows 1 (db w') = []
  /\ (forall id', id' <> 1 -> os_rows id' (db w') = os_rows id' (db w))
  /\ (forall k, Some 10 <> Some k ->
        filter (fun e => Nat.eqb (orcamento_id e) k) (orcamentos_t (db w'))
        = filter (fun e => Nat.eqb (orcamento_id e) k) (orcamentos_t (db w)))
  /\ pecas_estoque (db w') = pecas_estoque (db w).
Proof.
  apply (exclusao_sucesso nunca_falha (mkWorld db_exemplo []) 1 os_exemplo);
    reflexivity.
Defined.

Lemma leitura_ordenada_por_criacao_witness :
  let w := mkWorld db_duas_ordens [] in
  let l := map (resolver_veiculo nunca_falha (db w)) (ordens_detalhadas (db w)) in
  fst (ordensServico_queryFn nunca_falha w) = inr l
  /\ Sorted mais_recente_primeiro (map osd_row l)
  /\ Permutation (map osd_row l) (ordem_servico_t (db w)).
Proof.
  intros w l.
  assert (H : fst (ordensServico_queryFn nunca_falha w) = inr l) by (vm_compute; reflexivity).
  split; [exact H | apply (leitura_ordenada_por_criacao nunca_falha w l H)].
Defined.

